(** * The tick-driven core of the Neural MMO world: [forge/blade/core/realm.py]

    A shallow embedding of [Packet], [Spawner] and [Realm], and the
    properties of the admission ledger, of identity generation, of action
    prioritisation and of the per-tick pipeline.

    Python integers are [Z]; [//] and [%] are [Z.div] and [Z.modulo] (both
    floor, as in Python) with the division by zero raised explicitly;
    [str] of an integer is its decimal form, [pretty].  A
    [dict] whose iteration order is observable is an insertion-ordered
    association list; [Spawner.pops], which is never iterated, is a [gmap].
    Methods are computations in a state-and-exception monad: a raised
    exception keeps every mutation made before it, as in Python. *)

From Stdlib Require Import ZArith Lia.
From stdpp Require Import gmap list strings pretty.

Local Open Scope Z_scope.

(** ** Insertion-ordered dictionaries with integer keys *)

Section ordered_dict.
Context {V : Type}.

Fixpoint od_get (k : Z) (l : list (Z * V)) : option V :=
  match l with
  | [] => None
  | (k', v) :: l' => if decide (k = k') then Some v else od_get k l'
  end.

(** [d[k] = v]: an existing key keeps its position, a new key goes last. *)
Fixpoint od_set (k : Z) (v : V) (l : list (Z * V)) : list (Z * V) :=
  match l with
  | [] => [(k, v)]
  | (k', v') :: l' =>
      if decide (k = k') then (k, v) :: l' else (k', v') :: od_set k v l'
  end.

(** [del d[k]] for a key that is present. *)
Fixpoint od_del (k : Z) (l : list (Z * V)) : list (Z * V) :=
  match l with
  | [] => []
  | (k', v') :: l' =>
      if decide (k = k') then l' else (k', v') :: od_del k l'
  end.

Definition od_keys (l : list (Z * V)) : list Z := map fst l.
Definition od_values (l : list (Z * V)) : list V := map snd l.
End ordered_dict.

(** [s.add(x)] on a Python [set], kept as a duplicate-free list. *)
Definition set_add {A} `{EqDecision A} (x : A) (l : list A) : list A :=
  if decide (x ∈ l) then l else l ++ [x].

(** ** Exceptions and the state monad *)

Inductive Error :=
| ZeroDivisionError
| KeyError (k : Z)
| AssertIdenNone_step      (* realm.py:108 *)
| AssertIdenNone_spawner   (* realm.py:43 *)
| AssertPopOver            (* realm.py:44 *)
| AssertEntsOver           (* realm.py:45 *)
| AssertEntPresent         (* realm.py:59 *)
| AssertCullPop            (* realm.py:72 *)
| AssertCullEnts           (* realm.py:73 *)
| AssertRestart.           (* realm.py:125 *)

Inductive Res (A : Type) :=
| Ok (a : A)
| Raise (e : Error).
Arguments Ok {A} a.
Arguments Raise {A} e.

(** A Python value that is either [None] or a boolean. *)
Inductive PyVal := PyNone | PyBool (b : bool).

Definition truthy (v : PyVal) : bool :=
  match v with PyNone => false | PyBool b => b end.

Definition M (S A : Type) : Type := S → Res A * S.

Definition ret {S A} (a : A) : M S A := λ s, (Ok a, s).

Definition bind {S A B} (m : M S A) (f : A → M S B) : M S B :=
  λ s, match m s with
       | (Ok a, s') => f a s'
       | (Raise e, s') => (Raise e, s')
       end.

Definition raise {S A} (e : Error) : M S A := λ s, (Raise e, s).
Definition gets {S A} (f : S → A) : M S A := λ s, (Ok (f s), s).
Definition modify {S} (f : S → S) : M S unit := λ s, (Ok tt, f s).

Definition assert_ {S} (b : bool) (e : Error) : M S unit :=
  if b then ret tt else raise e.

Notation "x <- m ;; k" := (bind m (λ x, k))
  (at level 100, m at next level, right associativity).
Notation "m ;; k" := (bind m (λ _, k))
  (at level 100, right associativity).

(** [for x in l: body(x)] *)
Fixpoint for_ {S A} (l : list A) (body : A → M S unit) : M S unit :=
  match l with
  | [] => ret tt
  | x :: l' => body x ;; for_ l' body
  end.

(** A loop that also updates local variables [acc]. *)
Fixpoint foldM {S A B} (body : B → A → M S B) (l : list A) (acc : B) : M S B :=
  match l with
  | [] => ret acc
  | x :: l' => acc' <- body acc x ;; foldM body l' acc'
  end.

(** ** Configuration and external collaborators *)

Record Config := { NENT : Z; NPOP : Z; STIM : Z }.

(** The world/grid, the entity class, the palette and the string hash are
    not part of [realm.py].  [World] is everything these collaborators own:
    the tile grid and the mutable fields of every entity object.  [Ref] is
    a reference to a [Player] object; the same reference is held by
    [Realm.desciples], by the tiles and by the packets. *)
Class Collaborators := {
  World : Type;
  Ref : Type;
  Atn : Type;
  Args : Type;
  Stim : Type;
  Color : Type;
  Serial : Type;
  EnvArr : Type;
  Serial_eq_dec :: EqDecision Serial;
  (** [atn.priority] *)
  priority : Atn → Z;
  (** the builtin [hash] on strings (salted per process) *)
  hash : string → Z;
  (** [core.Env(config, idx)] *)
  Env : Config → Z → World;
  (** [Palette(nPop).colors[pop]] *)
  Palette_colors : Z → Z → Color;
  (** [entity.Player(config, iden, pop, name, color)] *)
  Player : Config → Z → Z → string → Color → World → Ref * World;
  (** [ent in realm.desciples], decided by the entity class's [__hash__]
      and [__eq__] against the keys *)
  ent_in : Ref → list Z → World → bool;
  (** [ent.entID], fixed when the object is built *)
  entID_of : Ref → Z;
  (** [ent.annID], [ent.base.population.val], [ent.base.pos],
      [ent.base.alive], [ent.serial] *)
  annID : World → Ref → Z;
  population_val : World → Ref → Z;
  pos : World → Ref → Z * Z;
  alive : World → Ref → bool;
  serial : World → Ref → Serial;
  (** [tiles[r, c].addEnt(iden, ent)], [tiles[r, c].counts[val] += 1],
      [tiles[r, c].delEnt(entID)] *)
  addEnt : Z * Z → Z → Ref → World → World;
  counts_incr : Z * Z → Z → World → World;
  delEnt : Z * Z → Z → World → World;
  (** [ent.step(world, actions)], [ent.act(world, atnArgs)] *)
  ent_step : Ref → list (Atn * Args) → World → World;
  ent_act : Ref → Atn * Args → World → World;
  (** [world.step(ents, [])], [world.env.step()], [world.env.np()],
      [world.env.stim(pos, STIM)] *)
  world_step : list Ref → World → World;
  env_step : World → World;
  env_np : World → EnvArr;
  env_stim : World → Z * Z → Z → Stim;
  (** the order in which a [for] loop visits a [set] of integers *)
  set_iter : list Z → list Z;
  set_iter_perm : ∀ l, set_iter l ≡ₚ l;
  (** the entity is built with the identifier it is given *)
  Player_entID : ∀ cfg iden pop name color w,
    entID_of (Player cfg iden pop name color w).1 = iden
}.

(** ** The data model *)

Section realm.
Context `{Collaborators}.

(** [Packet.stim] is [None], then the entity, then [(stim, ent)]. *)
Inductive StimVal :=
| StimNone
| StimEnt (ent : Ref)
| StimPair (stim : Stim) (ent : Ref).

Record Packet := {
  pk_stim : StimVal;
  pk_reward : option Z;
  pk_done : option bool
}.

(** [Packet()] *)
Definition Packet_new : Packet :=
  {| pk_stim := StimNone; pk_reward := None; pk_done := None |}.

Record Spawner := {
  nEnt : Z;
  nPop : Z;
  popSz : Z;
  sp_config : Config;
  ents : Z;
  pops : gmap Z Z
}.

(** [Realm.env] is first the world's own environment, later its [np()]. *)
Inductive EnvField := EnvOfWorld | EnvNp (a : EnvArr).

Record Realm := {
  spawner : Spawner;
  world : World;
  env : EnvField;
  config : Config;
  worldIdx : Z;
  desciples : list (Z * Ref);
  entID : Z;
  tick : Z
}.

Definition set_spawner (f : Spawner → Spawner) (s : Realm) : Realm :=
  {| spawner := f (spawner s); world := world s; env := env s;
     config := config s; worldIdx := worldIdx s;
     desciples := desciples s; entID := entID s; tick := tick s |}.
Definition set_world (f : World → World) (s : Realm) : Realm :=
  {| spawner := spawner s; world := f (world s); env := env s;
     config := config s; worldIdx := worldIdx s;
     desciples := desciples s; entID := entID s; tick := tick s |}.
Definition set_env (e : EnvField) (s : Realm) : Realm :=
  {| spawner := spawner s; world := world s; env := e;
     config := config s; worldIdx := worldIdx s;
     desciples := desciples s; entID := entID s; tick := tick s |}.
Definition set_desciples (f : list (Z * Ref) → list (Z * Ref)) (s : Realm) : Realm :=
  {| spawner := spawner s; world := world s; env := env s;
     config := config s; worldIdx := worldIdx s;
     desciples := f (desciples s); entID := entID s; tick := tick s |}.
Definition set_entID (f : Z → Z) (s : Realm) : Realm :=
  {| spawner := spawner s; world := world s; env := env s;
     config := config s; worldIdx := worldIdx s;
     desciples := desciples s; entID := f (entID s); tick := tick s |}.
Definition set_tick (f : Z → Z) (s : Realm) : Realm :=
  {| spawner := spawner s; world := world s; env := env s;
     config := config s; worldIdx := worldIdx s;
     desciples := desciples s; entID := entID s; tick := f (tick s) |}.

Definition set_ents (f : Z → Z) (sp : Spawner) : Spawner :=
  {| nEnt := nEnt sp; nPop := nPop sp; popSz := popSz sp;
     sp_config := sp_config sp; ents := f (ents sp); pops := pops sp |}.
Definition set_pops (f : gmap Z Z → gmap Z Z) (sp : Spawner) : Spawner :=
  {| nEnt := nEnt sp; nPop := nPop sp; popSz := popSz sp;
     sp_config := sp_config sp; ents := ents sp; pops := f (pops sp) |}.

(** ** Spawner *)

(** [Spawner.__init__]: [nEnt // nPop] raises when [nPop] is zero. *)
Definition Spawner_init (cfg : Config) : Res Spawner :=
  if decide (NPOP cfg = 0) then Raise ZeroDivisionError
  else Ok {| nEnt := NENT cfg; nPop := NPOP cfg;
             popSz := NENT cfg `div` NPOP cfg;
             sp_config := cfg; ents := 0; pops := ∅ |}.

(** Reading [self.pops[pop]]: a [defaultdict(int)] stores [0] under a
    missing key before returning it. *)
Definition pops_read (pop : Z) : M Spawner Z :=
  λ sp, match pops sp !! pop with
        | Some c => (Ok c, sp)
        | None => (Ok 0, set_pops (insert pop 0) sp)
        end.

(** The live count of a population: no entry means zero. *)
Definition liveCount (sp : Spawner) (pop : Z) : Z :=
  default 0 (pops sp !! pop).

(** Run a ledger computation on [realm.spawner]. *)
Definition on_spawner {A} (m : M Spawner A) : M Realm A :=
  λ s, let '(r, sp) := m (spawner s) in (r, set_spawner (λ _, sp) s).

(** [Spawner.spawn(self, realm, iden, pop, name)] with [self] the
    realm's own spawner.  Every path ends without a [return] value or
    with [return None]. *)
Definition Spawner_spawn (iden : option Z) (pop : Z) (name : string)
  : M Realm PyVal :=
  match iden with
  | None => raise AssertIdenNone_spawner
  | Some iden =>
    c <- on_spawner (pops_read pop) ;;
    sp <- gets spawner ;;
    assert_ (bool_decide (c ≤ popSz sp)) AssertPopOver ;;
    assert_ (bool_decide (ents sp ≤ nEnt sp)) AssertEntsOver ;;
    if decide (ents sp = nEnt sp) then ret PyNone else
    c <- on_spawner (pops_read pop) ;;
    if decide (c = popSz sp) then ret PyNone else
    c <- on_spawner (pops_read pop) ;;
    modify (set_spawner (λ sp, set_ents (λ n, n + 1)
                                 (set_pops (insert pop (c + 1)) sp))) ;;
    sp <- gets spawner ;;
    let color := Palette_colors (nPop sp) pop in
    w <- gets world ;;
    let '(ent, w') := Player (sp_config sp) iden pop name color w in
    modify (set_world (λ _, w')) ;;
    keys <- gets (λ s, od_keys (desciples s)) ;;
    assert_ (negb (ent_in ent keys w')) AssertEntPresent ;;
    let rc := pos w' ent in
    modify (set_desciples (od_set (entID_of ent) ent)) ;;
    modify (set_world (addEnt rc iden ent)) ;;
    w <- gets world ;;
    modify (set_world (counts_incr rc (population_val w ent))) ;;
    ret PyNone
  end.

(** [Spawner.cull(self, pop)] *)
Definition Spawner_cull (pop : Z) : M Spawner unit :=
  c <- pops_read pop ;;
  assert_ (bool_decide (1 ≤ c)) AssertCullPop ;;
  n <- gets ents ;;
  assert_ (bool_decide (1 ≤ n)) AssertCullEnts ;;
  c <- pops_read pop ;;
  modify (λ sp, set_ents (λ n, n - 1) (set_pops (insert pop (c - 1)) sp)) ;;
  c <- pops_read pop ;;
  if decide (c = 0) then modify (set_pops (delete pop)) else ret tt.

(** ** Realm *)

(** [decisions]: entity identifier to (action kind to arguments). *)
Definition Decisions : Type := list (Z * list (Atn * Args)).

(** The priority-bucketed actions built by [prioritize]:
    priority to (entity identifier to [[atn, args]]). *)
Definition Actions : Type := list (Z * list (Z * (Atn * Args))).

(** [Realm.__init__]; the timing base class [Timed] and the [runtime]
    decorator only measure time and are left out. *)
Definition Realm_init (cfg : Config) (idx : Z) : Res Realm :=
  match Spawner_init cfg with
  | Raise e => Raise e
  | Ok sp =>
      Ok {| spawner := sp; world := Env cfg idx; env := EnvOfWorld;
            config := cfg; worldIdx := idx; desciples := [];
            entID := 1; tick := 0 |}
  end.

(** [Realm.reward] *)
Definition reward (entID : Z) : Z := 0.

(** [Realm.spawn]: the population is computed from the counter before
    the increment, the identifier returned is the counter after it. *)
Definition spawn : M Realm (option Z * Z * string) :=
  n <- gets entID ;;
  npop <- gets (λ s, NPOP (config s)) ;;
  if decide (npop = 0) then raise ZeroDivisionError else
  let pop := hash (pretty n) `mod` npop in
  modify (set_entID (λ n, n + 1)) ;;
  n' <- gets entID ;;
  ret (Some n', pop, "Neural_"%string).

(** [self.desciples[entID]] *)
Definition lookup_ent (k : Z) : M Realm Ref :=
  d <- gets desciples ;;
  match od_get k d with
  | Some ent => ret ent
  | None => raise (KeyError k)
  end.

(** [Realm.act] *)
Definition act (actions : Actions) : M Realm unit :=
  for_ actions (λ '(priority, tups),
    for_ tups (λ '(entID, atnArgs),
      ent <- lookup_ent entID ;;
      modify (set_world (ent_act ent atnArgs)))).

(** [actions[atn.priority][entID] = [atn, args]] on a
    [defaultdict(dict)] *)
Definition prioritize_put (entID : Z) (actions : Actions)
    (item : Atn * Args) : Actions :=
  let tier := default [] (od_get (priority item.1) actions) in
  od_set (priority item.1) (od_set entID item tier) actions.

(** [Realm.prioritize] *)
Definition prioritize (decisions : Decisions) : Actions :=
  fold_left (λ actions '(entID, atns),
               fold_left (prioritize_put entID) atns actions)
            decisions [].

(** [Realm.stepEnv] *)
Definition stepEnv : M Realm unit :=
  ents <- gets (λ s, od_values (desciples s)) ;;
  modify (set_world (world_step ents)) ;;
  modify (set_world env_step) ;;
  w <- gets world ;;
  modify (set_env (EnvNp (env_np w))).

(** [Realm.postmortem]; the set [dead] is a local of the caller. *)
Definition postmortem (w : World) (ent : Ref) (dead : list Z)
  : bool * list Z :=
  let entID := entID_of ent in
  if negb (alive w ent) then (true, set_add entID dead) else (false, dead).

(** The body of the loop of [cullDead]. *)
Definition cullDead_body (entID : Z) : M Realm unit :=
  ent <- lookup_ent entID ;;
  w <- gets world ;;
  let rc := pos w ent in
  modify (set_world (delEnt rc entID)) ;;
  w <- gets world ;;
  on_spawner (Spawner_cull (annID w ent)) ;;
  d <- gets desciples ;;
  match od_get entID d with
  | Some _ => modify (set_desciples (od_del entID))
  | None => raise (KeyError entID)
  end.

(** [Realm.cullDead] *)
Definition cullDead (dead : list Z) : M Realm unit :=
  for_ (set_iter dead) cullDead_body.

Definition set_pk_stim (v : StimVal) (p : Packet) : Packet :=
  {| pk_stim := v; pk_reward := pk_reward p; pk_done := pk_done p |}.
Definition set_pk_reward (r : option Z) (p : Packet) : Packet :=
  {| pk_stim := pk_stim p; pk_reward := r; pk_done := pk_done p |}.

(** [packets[entID].field = v] on a [defaultdict(Packet)]: a missing key
    first gets a fresh [Packet()], appended. *)
Definition pk_update (k : Z) (f : Packet → Packet)
    (packets : list (Z * Packet)) : list (Z * Packet) :=
  od_set k (f (default Packet_new (od_get k packets))) packets.

(** The scan of [stepEnts] over [decisions.keys()], with its locals
    [dead], [dones] and [packets]. *)
Definition scan_body (acc : list Z * list Serial * list (Z * Packet))
    (entID : Z) : M Realm (list Z * list Serial * list (Z * Packet)) :=
  let '(dead, dones, packets) := acc in
  ent <- lookup_ent entID ;;
  w <- gets world ;;
  let '(isdead, dead') := postmortem w ent dead in
  if isdead then ret (dead', set_add (serial w ent) dones, packets)
  else
    let packets := pk_update entID (set_pk_reward (Some (reward entID)))
                     packets in
    let packets := pk_update entID (set_pk_stim (StimEnt ent)) packets in
    ret (dead', dones, packets).

(** The first loop of [stepEnts]: every entity with a decision steps. *)
Definition stepAll (decisions : Decisions) : M Realm unit :=
  for_ decisions (λ '(entID, actions),
    ent <- lookup_ent entID ;;
    modify (set_world (ent_step ent actions))).

(** [Realm.stepEnts] *)
Definition stepEnts (decisions : Decisions)
  : M Realm (list (Z * Packet) * list Serial) :=
  stepAll decisions ;;
  let actions := prioritize decisions in
  act actions ;;
  r <- foldM scan_body (od_keys decisions) ([], [], []) ;;
  let '(dead, dones, packets) := r in
  cullDead dead ;;
  ret (packets, dones).

(** The body of the loop of [getStims]; the texture read
    [tiles[r, c].tex] is unused. *)
Definition getStims_body (packets : list (Z * Packet)) (item : Z * Ref)
  : M Realm (list (Z * Packet)) :=
  let '(entID, ent) := item in
  w <- gets world ;;
  cfg <- gets config ;;
  let stim := env_stim w (pos w ent) (STIM cfg) in
  ret (pk_update entID (set_pk_stim (StimPair stim ent)) packets).

(** [Realm.getStims] *)
Definition getStims (packets : list (Z * Packet))
  : M Realm (list (Z * Packet)) :=
  d <- gets desciples ;;
  foldM getStims_body d packets.

(** The admission at the head of [Realm.step]. *)
Definition step_admit : M Realm unit :=
  modify (set_tick (λ t, t + 1)) ;;
  r <- spawn ;;
  let '(iden, pop, name) := r in
  assert_ (bool_decide (iden ≠ None)) AssertIdenNone_step ;;
  Spawner_spawn iden pop name ;;
  ret tt.

(** [Realm.step] up to the packet dictionary it projects. *)
Definition step_packets (decisions : Decisions)
  : M Realm (list (Z * Packet) * list Serial) :=
  step_admit ;;
  r <- stepEnts decisions ;;
  let '(packets, dead) := r in
  stepEnv ;;
  packets <- getStims packets ;;
  ret (packets, dead).

(** [Realm.step] *)
Definition step (decisions : Decisions)
  : M Realm (list StimVal * list (option Z) * list Serial * PyVal) :=
  r <- step_packets decisions ;;
  let '(packets, dead) := r in
  let stims := map pk_stim (od_values packets) in
  let rewards := map pk_reward (od_values packets) in
  let dones := dead in
  ret (stims, rewards, dones, PyNone).

(** [Realm.reset] *)
Definition reset
  : M Realm (list StimVal * list (option Z) * list Serial * PyVal) :=
  t <- gets tick ;;
  assert_ (bool_decide (t = 0)) AssertRestart ;;
  step [].

(** The states a realm built from [cfg] goes through: any number of
    [step] calls with any decisions, whether they return or raise. *)
Inductive reachable (cfg : Config) (idx : Z) : Realm → Prop :=
| reach_init s : Realm_init cfg idx = Ok s → reachable cfg idx s
| reach_step s decisions :
    reachable cfg idx s → reachable cfg idx (step decisions s).2.

End realm.

Global Arguments Spawner_spawn : simpl never.
Global Arguments Spawner_cull : simpl never.
Global Arguments spawn : simpl never.
Global Arguments step_admit : simpl never.
Global Arguments stepEnts : simpl never.
Global Arguments stepEnv : simpl never.
Global Arguments getStims : simpl never.
Global Arguments cullDead : simpl never.
Global Arguments step_packets : simpl never.
Global Arguments step : simpl never.

(** ** A concrete set of collaborators

    Entity references are pairs (identifier, population); the world keeps
    the identifiers whose liveness flag is false and a log of the applied
    actions.  An action kind is a name with a priority; its argument is
    the identifier of a target, which an ["Attack"] kills. *)

Module Sample.

Record SWorld := { killed : list Z; applied : list (Z * string * Z) }.

(** A stand-in for the string hash: the sum of the character codes. *)
Fixpoint s_hash (str : string) : Z :=
  match str with
  | EmptyString => 0
  | String c rest => Z.of_nat (Ascii.nat_of_ascii c) + s_hash rest
  end.

Definition s_act (ent : Z * Z) (item : (string * Z) * Z) (w : SWorld)
  : SWorld :=
  {| killed := if decide (item.1.1 = "Attack"%string)
               then item.2 :: killed w else killed w;
     applied := applied w ++ [(ent.1, item.1.1, item.1.2)] |}.

Definition collab : Collaborators := {|
  World := SWorld;
  Ref := Z * Z;
  Atn := string * Z;
  Args := Z;
  Stim := Z * Z;
  Color := Z;
  Serial := Z;
  EnvArr := unit;
  priority := snd;
  hash := s_hash;
  Env := λ _ _, {| killed := []; applied := [] |};
  Palette_colors := λ _ pop, pop;
  Player := λ _ iden pop _ _ w, ((iden, pop), w);
  ent_in := λ _ _ _, false;
  entID_of := fst;
  annID := λ _ ent, ent.2;
  population_val := λ _ ent, ent.2;
  pos := λ _ ent, (0, ent.1);
  alive := λ w ent, bool_decide (ent.1 ∉ killed w);
  serial := λ _ ent, ent.1;
  addEnt := λ _ _ _ w, w;
  counts_incr := λ _ _ w, w;
  delEnt := λ _ _ w, w;
  ent_step := λ _ _ w, w;
  ent_act := s_act;
  world_step := λ _ w, w;
  env_step := λ w, w;
  env_np := λ _, tt;
  env_stim := λ _ rc _, rc;
  set_iter := λ l, l;
  set_iter_perm := λ l, Permutation_refl l;
  Player_entID := λ _ _ _ _ _ _, eq_refl
|}.

Definition cfg21 : Config := {| NENT := 2; NPOP := 1; STIM := 3 |}.
Definition cfg42 : Config := {| NENT := 4; NPOP := 2; STIM := 3 |}.

(** The realm built from a configuration ([NPOP] is not zero in those
    used here). *)
Definition realm0 (cfg : Config) : @Realm collab :=
  {| spawner := {| nEnt := NENT cfg; nPop := NPOP cfg;
                   popSz := NENT cfg `div` NPOP cfg; sp_config := cfg;
                   ents := 0; pops := ∅ |};
     world := @Env collab cfg 0; env := EnvOfWorld;
     config := cfg; worldIdx := 0; desciples := []; entID := 1;
     tick := 0 |}.

(** The state after a list of [step] calls. *)
Definition run (ds : list (@Decisions collab)) (s : @Realm collab)
  : @Realm collab :=
  fold_left (λ s d, (@step collab d s).2) ds s.

End Sample.

(** ** Specification vocabulary *)

(** [m] keeps [P], whether it returns or raises. *)
Definition preserves {S A} (P : S → Prop) (m : M S A) : Prop :=
  ∀ s, P s → P (m s).2.

(** [m] never raises [e]. *)
Definition never {S A} (e : Error) (m : M S A) : Prop :=
  ∀ s, (m s).1 ≠ Raise e.

(** The exceptions that can leave [step] on a realm in good order: a
    lookup of an entity that is not there, the two assertions of
    [Spawner.cull], and the assertion on the entity just built. *)
Definition tick_error (e : Error) : Prop :=
  match e with
  | KeyError _ | AssertCullPop | AssertCullEnts | AssertEntPresent => True
  | _ => False
  end.

Section vocabulary.
Context `{Collaborators}.

(** The sum of the per-population counts of the ledger. *)
Definition sum_counts (m : gmap Z Z) : Z :=
  map_fold (λ _ c acc, c + acc) 0 m.

(** The ledger invariant: bounds of the counts, and the total is the sum
    of the per-population counts. *)
Definition ledger_inv (sp : Spawner) : Prop :=
  0 ≤ popSz sp ∧
  0 ≤ ents sp ≤ nEnt sp ∧
  (∀ p c, pops sp !! p = Some c → 0 ≤ c ≤ popSz sp) ∧
  sum_counts (pops sp) = ents sp.

(** The sizes a ledger is configured with. *)
Definition sizes (sp : Spawner) : Z * Z * Z * Config :=
  (nEnt sp, nPop sp, popSz sp, sp_config sp).

(** The realm still carries the configuration it was built from. *)
Definition built_from (cfg : Config) (s : Realm) : Prop :=
  config s = cfg ∧ NPOP cfg ≠ 0 ∧
  nEnt (spawner s) = NENT cfg ∧ nPop (spawner s) = NPOP cfg ∧
  popSz (spawner s) = NENT cfg `div` NPOP cfg.

(** The entity map is keyed by the identifiers of its entities, without
    repetition, and every key has already been generated. *)
Definition desc_wf (s : Realm) : Prop :=
  NoDup (od_keys (desciples s)) ∧
  (∀ k ent, (k, ent) ∈ desciples s → entID_of ent = k ∧ k ≤ entID s).

(** The identifiers generated by the [step] calls of a run, one call per
    element of [ds], starting in [s]: each call increments the tick and
    then calls [spawn]. *)
Fixpoint idens_of_run (ds : list Decisions) (s : Realm) : list Z :=
  match ds with
  | [] => []
  | d :: ds' =>
      match (spawn (set_tick (λ t, t + 1) s)).1 with
      | Ok (Some iden, _, _) => [iden]
      | _ => []
      end ++ idens_of_run ds' (step d s).2
  end.

(** The calls [ent.act(world, atnArgs)] that [act] makes, in order: the
    entity identifier looked up, with the priority of the tier. *)
Definition act_calls (actions : Actions) : list (Z * Z * (Atn * Args)) :=
  flat_map (λ '(prio, tups), map (λ '(entID, item), (prio, entID, item)) tups)
           actions.

(** The submitted actions in the order [prioritize] meets them. *)
Definition submitted (decisions : Decisions) : list (Z * (Atn * Args)) :=
  flat_map (λ '(entID, atns), map (λ item, (entID, item)) atns) decisions.

(** What the scan has collected: the dead identifiers and serials come
    from decided entities whose liveness flag is false, the packets from
    decided entities whose flag is true, each with reward zero. *)
Definition scan_inv (L : list Z) (s : Realm)
    (acc : list Z * list Serial * list (Z * Packet)) : Prop :=
  let '(dead, dones, pk) := acc in
  (∀ x, x ∈ dead → ∃ k ent, k ∈ L ∧ od_get k (desciples s) = Some ent ∧
          alive (world s) ent = false ∧ entID_of ent = x) ∧
  (∀ x, x ∈ dones → ∃ k ent, k ∈ L ∧ od_get k (desciples s) = Some ent ∧
          alive (world s) ent = false ∧ serial (world s) ent = x) ∧
  (∀ k p, (k, p) ∈ pk → k ∈ L ∧ pk_reward p = Some 0 ∧
          ∃ ent, od_get k (desciples s) = Some ent ∧
                 alive (world s) ent = true) ∧
  NoDup dead ∧ NoDup (od_keys pk).

(** What the scan has covered: every key of [l] is accounted for. *)
Definition scan_cover (l : list Z) (s : Realm)
    (acc : list Z * list Serial * list (Z * Packet)) : Prop :=
  let '(dead, dones, pk) := acc in
  ∀ k ent, k ∈ l → od_get k (desciples s) = Some ent →
    if alive (world s) ent then k ∈ od_keys pk else entID_of ent ∈ dead.

(** The entry of entity [e] in the tier of priority [p]. *)
Definition tier_entry (actions : Actions) (p e : Z) : option (Atn * Args) :=
  od_get p actions ≫= od_get e.

(** The part of the realm that the world's own steps leave alone. *)
Definition realm_part (s : Realm)
  : Spawner * list (Z * Ref) * Config * Z * Z :=
  (spawner s, desciples s, config s, entID s, tick s).

(** The state after a list of [step] calls, each returning or raising. *)
Definition steps (ds : list Decisions) (s : Realm) : Realm :=
  fold_left (λ s d, (step d s).2) ds s.

(** The state in which [stepEnts] scans the decided entities: after the
    admission, the first loop and [act]. *)
Definition state_at_scan (decisions : Decisions) (s : Realm) : Realm :=
  (act (prioritize decisions) (stepAll decisions (step_admit s).2).2).2.

(** The states a realm goes through when every [step] call returns. *)
Inductive reachable_ok (cfg : Config) (idx : Z) : Realm → Prop :=
| rok_init s : Realm_init cfg idx = Ok s → reachable_ok cfg idx s
| rok_step s decisions r s' :
    reachable_ok cfg idx s → step decisions s = (Ok r, s') →
    reachable_ok cfg idx s'.

(** The tiers of [prioritize] are in good order with respect to what was
    submitted: no priority and, within a tier, no entity occurs twice, no
    tier is empty, and every entry is a submitted action of the tier's
    priority. *)
Definition tiers_wf (subm : list (Z * (Atn * Args)))
    (actions : Actions) : Prop :=
  NoDup (od_keys actions) ∧
  ∀ p tups, (p, tups) ∈ actions →
    tups ≠ [] ∧ NoDup (od_keys tups) ∧
    ∀ e item, (e, item) ∈ tups → priority item.1 = p ∧ (e, item) ∈ subm.

End vocabulary.

(** * Properties *)

(** ** The monad *)

Section monad_facts.
Context {S : Type}.

Lemma preserves_ret {A} (P : S → Prop) (a : A) : preserves P (ret a).
Proof. by intros s Hs. Qed.

Lemma preserves_raise {A} (P : S → Prop) e : preserves P (@raise S A e).
Proof. by intros s Hs. Qed.

Lemma preserves_gets {A} (P : S → Prop) (f : S → A) : preserves P (gets f).
Proof. by intros s Hs. Qed.

Lemma preserves_assert (P : S → Prop) b e : preserves P (assert_ b e).
Proof. by destruct b; intros s Hs. Qed.

Lemma preserves_modify (P : S → Prop) (f : S → S) :
  (∀ s, P s → P (f s)) → preserves P (modify f).
Proof. intros Hf s Hs. by apply Hf. Qed.

Lemma preserves_bind {A B} (P : S → Prop) (m : M S A) (f : A → M S B) :
  preserves P m → (∀ a, preserves P (f a)) → preserves P (bind m f).
Proof.
  intros Hm Hf s Hs. unfold bind. specialize (Hm s Hs).
  destruct (m s) as [[a|e] s1]; simpl in *; [by apply Hf | done].
Qed.

Lemma preserves_for {A} (P : S → Prop) (l : list A) (body : A → M S unit) :
  (∀ x, x ∈ l → preserves P (body x)) → preserves P (for_ l body).
Proof.
  induction l as [|x l IH]; intros Hb; simpl.
  - apply preserves_ret.
  - apply preserves_bind; [apply Hb; left | intros _; apply IH].
    intros y Hy. apply Hb. by right.
Qed.

Lemma preserves_foldM {A B} (P : S → Prop) (body : B → A → M S B) l acc :
  (∀ b x, preserves P (body b x)) → preserves P (foldM body l acc).
Proof.
  intros Hb. revert acc. induction l as [|x l IH]; intros acc; simpl.
  - apply preserves_ret.
  - apply preserves_bind; [apply Hb | intros b; apply IH].
Qed.

Lemma bind_Ok {A B} (m : M S A) (f : A → M S B) s b s' :
  bind m f s = (Ok b, s') →
  ∃ a s1, m s = (Ok a, s1) ∧ f a s1 = (Ok b, s').
Proof.
  unfold bind. destruct (m s) as [[a|e] s1]; intros Heq; [eauto | done].
Qed.

Lemma bind_run {A B} (m : M S A) (f : A → M S B) s a s1 :
  m s = (Ok a, s1) → bind m f s = f a s1.
Proof. unfold bind. by intros ->. Qed.

Lemma bind_run_raise {A B} (m : M S A) (f : A → M S B) s e s1 :
  m s = (Raise e, s1) → bind m f s = (Raise e, s1).
Proof. unfold bind. by intros ->. Qed.

Lemma assert_Ok (b : bool) e (s s' : S) u :
  assert_ b e s = (Ok u, s') → b = true ∧ s' = s.
Proof. destruct b; simpl; unfold ret, raise; intros [= ]; auto. Qed.

End monad_facts.

Lemma bind_post {S A B} (P : S → Prop) (m : M S A) (f : A → M S B) s :
  P (m s).2 → (∀ a, preserves P (f a)) → P (bind m f s).2.
Proof.
  intros Hm Hf. unfold bind.
  destruct (m s) as [[a|e] s1]; simpl in *; [by apply Hf | done].
Qed.

(** One step of a proof that a computation keeps a property: peel a
    monadic construct or open a case distinction. *)
Ltac pres_step :=
  lazymatch goal with
  | |- preserves _ (ret _) => apply preserves_ret
  | |- preserves _ (raise _) => apply preserves_raise
  | |- preserves _ (gets _) => apply preserves_gets
  | |- preserves _ (assert_ _ _) => apply preserves_assert
  | |- preserves _ (bind _ _) => apply preserves_bind; [| intros ?]
  | |- preserves _ (for_ _ _) => apply preserves_for; intros ? _; cbv beta
  | |- preserves _ (foldM _ _ _) =>
      apply preserves_foldM; intros ? ?; cbv beta
  | |- preserves _ (match ?x with _ => _ end) => destruct x
  end.

(** ** Which part of the pipeline touches which part of the realm *)

Section pipeline_preserves.
Context `{Collaborators}.
Variable P : Realm → Prop.
Hypothesis P_world : ∀ f s, P s → P (set_world f s).
Hypothesis P_env : ∀ e s, P s → P (set_env e s).
Hypothesis P_del : ∀ k s, P s → P (set_desciples (od_del k) s).
Hypothesis P_cull : ∀ pop, preserves P (on_spawner (Spawner_cull pop)).

Lemma lookup_ent_preserves k : preserves P (lookup_ent k).
Proof. unfold lookup_ent. repeat pres_step. Qed.

Lemma act_preserves actions : preserves P (act actions).
Proof.
  unfold act. repeat pres_step; try apply lookup_ent_preserves.
  apply preserves_modify. intros s. apply P_world.
Qed.

Lemma cullDead_preserves dead : preserves P (cullDead dead).
Proof.
  unfold cullDead, cullDead_body. repeat pres_step;
    try apply lookup_ent_preserves; try apply P_cull;
    apply preserves_modify; intros s; auto.
Qed.

Lemma scan_body_preserves acc k : preserves P (scan_body acc k).
Proof.
  unfold scan_body. destruct acc as [[dead dones] packets].
  repeat pres_step; apply lookup_ent_preserves.
Qed.

Lemma stepEnts_preserves decisions : preserves P (stepEnts decisions).
Proof.
  unfold stepEnts, stepAll. repeat pres_step;
    try apply lookup_ent_preserves; try apply act_preserves;
    try apply cullDead_preserves; try apply scan_body_preserves.
  apply preserves_modify. intros s. apply P_world.
Qed.

Lemma stepEnv_preserves : preserves P stepEnv.
Proof.
  unfold stepEnv. repeat pres_step; apply preserves_modify; intros s; auto.
Qed.

Lemma getStims_preserves packets : preserves P (getStims packets).
Proof. unfold getStims, getStims_body. repeat pres_step. Qed.

Lemma step_post decisions s : P (step_admit s).2 → P (step decisions s).2.
Proof.
  intros Hadm. unfold step, step_packets.
  apply bind_post; [| intros a; repeat pres_step].
  apply bind_post; [done |]. intros _.
  repeat pres_step;
    auto using stepEnts_preserves, stepEnv_preserves, getStims_preserves.
Qed.

Lemma step_preserves decisions :
  preserves P step_admit → preserves P (step decisions).
Proof. intros Hadm s Hs. apply step_post. by apply Hadm. Qed.

End pipeline_preserves.

(** ** The ledger *)

Section ledger_facts.
Context `{Collaborators}.

Lemma sum_counts_insert (m : gmap Z Z) p c :
  sum_counts (<[p:=c]> m) = sum_counts m - default 0 (m !! p) + c.
Proof.
  unfold sum_counts. destruct (m !! p) as [c0|] eqn:Hp; simpl.
  - rewrite <- (insert_delete_eq m p c).
    rewrite map_fold_insert_L; [| intros; lia | apply lookup_delete_eq].
    rewrite (map_fold_delete_L _ 0 p c0 m); [lia | intros; lia | done].
  - rewrite map_fold_insert_L; [lia | intros; lia | done].
Qed.

Lemma sum_counts_delete (m : gmap Z Z) p :
  sum_counts (delete p m) = sum_counts m - default 0 (m !! p).
Proof.
  unfold sum_counts. destruct (m !! p) as [c0|] eqn:Hp; simpl.
  - rewrite (map_fold_delete_L _ 0 p c0 m); [lia | intros; lia | done].
  - rewrite delete_id; [lia | done].
Qed.

Lemma sum_counts_empty : sum_counts ∅ = 0.
Proof. unfold sum_counts. apply map_fold_empty. Qed.

(** Reading a count stores the count it returns and changes nothing else. *)
Lemma pops_read_eq pop sp :
  pops_read pop sp =
    (Ok (liveCount sp pop), set_pops (insert pop (liveCount sp pop)) sp).
Proof.
  unfold pops_read, liveCount. destruct (pops sp !! pop) as [c|] eqn:Hp; simpl.
  - f_equal. destruct sp as [a b c' d e m]; unfold set_pops; simpl in *.
    by rewrite insert_id.
  - done.
Qed.

Lemma liveCount_insert sp pop c p :
  liveCount (set_pops (insert pop c) sp) p =
    if decide (pop = p) then c else liveCount sp p.
Proof.
  unfold liveCount; simpl. rewrite lookup_insert.
  by destruct (decide (pop = p)).
Qed.

Lemma liveCount_delete sp pop p :
  liveCount (set_pops (delete pop) sp) p =
    if decide (pop = p) then 0 else liveCount sp p.
Proof.
  unfold liveCount; simpl. rewrite lookup_delete.
  by destruct (decide (pop = p)).
Qed.

Lemma ledger_inv_liveCount sp p :
  ledger_inv sp → 0 ≤ liveCount sp p ≤ popSz sp.
Proof.
  intros (Hsz & _ & Hb & _). unfold liveCount.
  destruct (pops sp !! p) as [c|] eqn:Hp; simpl; [by apply (Hb p) | lia].
Qed.

(** Storing a count [c] within bounds under [pop], with the total moved by
    the same amount, keeps the ledger invariant. *)
Lemma ledger_inv_store sp pop c d :
  ledger_inv sp →
  0 ≤ c ≤ popSz sp →
  d = c - liveCount sp pop →
  0 ≤ ents sp + d ≤ nEnt sp →
  ledger_inv (set_ents (λ n, n + d) (set_pops (insert pop c) sp)).
Proof.
  intros (Hsz & He & Hb & Hsum) Hc -> Hn. unfold ledger_inv; simpl.
  split_and!; try lia.
  - intros p c'. rewrite lookup_insert.
    destruct (decide (pop = p)); [intros [= <-]; lia | apply Hb].
  - rewrite sum_counts_insert. unfold liveCount. lia.
Qed.

Lemma ledger_inv_touch sp pop :
  ledger_inv sp → ledger_inv (set_pops (insert pop (liveCount sp pop)) sp).
Proof.
  intros Hinv.
  pose proof (ledger_inv_liveCount sp pop Hinv) as Hlc.
  destruct Hinv as (Hsz & He & Hb & Hsum). unfold ledger_inv; simpl.
  split_and!; try lia.
  - intros p c'. rewrite lookup_insert.
    destruct (decide (pop = p)); [intros [= <-]; lia | apply Hb].
  - rewrite sum_counts_insert. unfold liveCount. lia.
Qed.

Lemma ledger_inv_delete sp pop :
  ledger_inv sp → liveCount sp pop = 0 →
  ledger_inv (set_pops (delete pop) sp).
Proof.
  intros (Hsz & He & Hb & Hsum) H0. unfold ledger_inv; simpl.
  split_and!; try lia.
  - intros p c'. rewrite lookup_delete.
    destruct (decide (pop = p)); [done | apply Hb].
  - rewrite sum_counts_delete. unfold liveCount in H0. lia.
Qed.

End ledger_facts.

(** ** Closed forms of the two ledger operations *)

Section spawner_facts.
Context `{Collaborators}.

Lemma pops_read_Some pop sp c :
  pops sp !! pop = Some c → pops_read pop sp = (Ok c, sp).
Proof. unfold pops_read. by intros ->. Qed.

Lemma Spawner_cull_eq pop sp :
  Spawner_cull pop sp =
    let c := liveCount sp pop in
    let sp1 := set_pops (insert pop c) sp in
    if bool_decide (1 ≤ c) then
      if bool_decide (1 ≤ ents sp) then
        let sp2 := set_ents (λ n, n - 1) (set_pops (insert pop (c - 1)) sp1) in
        (Ok tt, if decide (c - 1 = 0) then set_pops (delete pop) sp2 else sp2)
      else (Raise AssertCullEnts, sp1)
    else (Raise AssertCullPop, sp1).
Proof.
  unfold Spawner_cull, bind, gets, modify, assert_, ret, raise.
  rewrite pops_read_eq.
  case_bool_decide; [|done]. simpl. case_bool_decide; [|done].
  erewrite pops_read_Some; [| simpl; apply lookup_insert_eq].
  erewrite pops_read_Some; [| simpl; apply lookup_insert_eq].
  by destruct (decide _).
Qed.

Lemma Spawner_spawn_eq iden pop name s :
  Spawner_spawn (Some iden) pop name s =
    let sp := spawner s in
    let c := liveCount sp pop in
    let sp1 := set_pops (insert pop c) sp in
    let s1 := set_spawner (λ _, sp1) s in
    if bool_decide (c ≤ popSz sp) then
      if bool_decide (ents sp ≤ nEnt sp) then
        if decide (ents sp = nEnt sp) then (Ok PyNone, s1)
        else if decide (c = popSz sp) then (Ok PyNone, s1)
        else
          let sp2 := set_ents (λ n, n + 1)
                       (set_pops (insert pop (c + 1)) sp1) in
          let color := Palette_colors (nPop sp) pop in
          let ew := Player (sp_config sp) iden pop name color (world s) in
          let s2 := set_world (λ _, ew.2) (set_spawner (λ _, sp2) s) in
          if ent_in ew.1 (od_keys (desciples s)) ew.2
          then (Raise AssertEntPresent, s2)
          else
            let rc := pos ew.2 ew.1 in
            let w3 := addEnt rc iden ew.1 ew.2 in
            (Ok PyNone,
             set_world (λ _, counts_incr rc (population_val w3 ew.1) w3)
               (set_desciples (od_set (entID_of ew.1) ew.1) s2))
      else (Raise AssertEntsOver, s1)
    else (Raise AssertPopOver, s1).
Proof.
  unfold Spawner_spawn, bind, on_spawner, gets, modify, assert_, ret, raise.
  rewrite pops_read_eq. simpl.
  case_bool_decide; [|done]. simpl. case_bool_decide; [|done]. simpl.
  destruct (decide (ents _ = _)); [done|].
  erewrite pops_read_Some; [| simpl; apply lookup_insert_eq]. simpl.
  destruct (decide (liveCount _ _ = _)); [done|].
  erewrite pops_read_Some; [| simpl; apply lookup_insert_eq]. simpl.
  destruct (Player _ _ _ _ _ _) as [ent w'] eqn:HP. simpl.
  by destruct (ent_in _ _ _).
Qed.

(** The ledger after an increment or a decrement of [pop] by [d]. *)
Lemma ledger_inv_move sp pop d :
  ledger_inv sp →
  0 ≤ liveCount sp pop + d ≤ popSz sp →
  0 ≤ ents sp + d ≤ nEnt sp →
  ledger_inv
    (set_ents (λ n, n + d)
       (set_pops (insert pop (liveCount sp pop + d))
          (set_pops (insert pop (liveCount sp pop)) sp))).
Proof.
  intros Hinv Hc Hn.
  apply (ledger_inv_store
           (set_pops (insert pop (liveCount sp pop)) sp) pop _ d);
    [by apply ledger_inv_touch | done | | done].
  rewrite liveCount_insert, decide_True by done. lia.
Qed.

Lemma Spawner_cull_ledger pop : preserves ledger_inv (Spawner_cull pop).
Proof.
  intros sp Hinv. rewrite Spawner_cull_eq. cbv zeta.
  pose proof (ledger_inv_liveCount sp pop Hinv) as Hlc.
  pose proof Hinv as (Hsz & He & _ & _).
  case_bool_decide as Hc; [| by apply ledger_inv_touch].
  case_bool_decide as Hn; [| by apply ledger_inv_touch].
  assert (Hmove := ledger_inv_move sp pop (-1) Hinv).
  replace (liveCount sp pop + -1) with (liveCount sp pop - 1) in Hmove by lia.
  simpl. destruct (decide _) as [H0|H0].
  - apply ledger_inv_delete.
    + apply (Hmove ltac:(lia) ltac:(lia)).
    + unfold liveCount; simpl. by rewrite lookup_insert_eq.
  - apply (Hmove ltac:(lia) ltac:(lia)).
Qed.

Lemma Spawner_spawn_ledger iden pop name :
  preserves (λ s, ledger_inv (spawner s)) (Spawner_spawn iden pop name).
Proof.
  intros s Hinv. destruct iden as [iden|]; [| done].
  rewrite Spawner_spawn_eq. cbv zeta.
  pose proof (ledger_inv_liveCount _ pop Hinv) as Hlc.
  pose proof Hinv as (Hsz & He & _ & _).
  pose proof (ledger_inv_touch _ pop Hinv) as Htouch.
  case_bool_decide as Hc; [| done].
  case_bool_decide as Hn; [| done].
  destruct (decide _) as [|Hfull]; [done |].
  destruct (decide _) as [|Hpop]; [done |].
  pose proof (ledger_inv_move _ pop 1 Hinv ltac:(lia) ltac:(lia)) as Hmove.
  by destruct (ent_in _ _ _).
Qed.

(** Neither operation changes the configured sizes. *)
Lemma Spawner_cull_sizes pop sp : sizes (Spawner_cull pop sp).2 = sizes sp.
Proof.
  rewrite Spawner_cull_eq. cbv zeta.
  repeat case_bool_decide; try done. simpl. by destruct (decide _).
Qed.

Lemma Spawner_spawn_sizes iden pop name s :
  sizes (spawner (Spawner_spawn iden pop name s).2) = sizes (spawner s).
Proof.
  destruct iden as [iden|]; [| done].
  rewrite Spawner_spawn_eq. cbv zeta.
  repeat case_bool_decide; try done.
  repeat (destruct (decide _); [done |]). by destruct (ent_in _ _ _).
Qed.

Lemma Spawner_spawn_config iden pop name s :
  config (Spawner_spawn iden pop name s).2 = config s.
Proof.
  destruct iden as [iden|]; [| done].
  rewrite Spawner_spawn_eq. cbv zeta.
  repeat case_bool_decide; try done.
  repeat (destruct (decide _); [done |]). by destruct (ent_in _ _ _).
Qed.

End spawner_facts.

(** ** Ordered dictionaries *)

Section ordered_dict_facts.
Context {V : Type}.
Implicit Types (l : list (Z * V)) (k : Z) (v : V).

Lemma od_get_Some_elem l k v : od_get k l = Some v → (k, v) ∈ l.
Proof.
  induction l as [|[k' v'] l IH]; simpl; [done |].
  destruct (decide (k = k')) as [->|Hne].
  - intros [= ->]. left.
  - intros Hg. right. by apply IH.
Qed.

Lemma od_get_None l k : od_get k l = None ↔ k ∉ od_keys l.
Proof.
  induction l as [|[k' v'] l IH]; simpl.
  - split; [intros _; apply not_elem_of_nil | done].
  - rewrite not_elem_of_cons. destruct (decide (k = k')) as [->|Hne].
    + split; [done | intros [? _]; done].
    + rewrite IH. tauto.
Qed.

Lemma od_get_is_Some l k : is_Some (od_get k l) ↔ k ∈ od_keys l.
Proof.
  destruct (od_get k l) as [v|] eqn:Hg.
  - split; [intros _ | eauto].
    destruct (decide (k ∈ od_keys l)) as [|Hn]; [done |].
    apply od_get_None in Hn. congruence.
  - split; [by intros [? ?] |]. intros Hin.
    apply od_get_None in Hg. done.
Qed.

Lemma elem_od_keys l k v : (k, v) ∈ l → k ∈ od_keys l.
Proof. intros Hin. apply (list_elem_of_fmap_2 fst) in Hin. apply Hin. Qed.

Lemma od_get_elem l k v : NoDup (od_keys l) → (k, v) ∈ l → od_get k l = Some v.
Proof.
  induction l as [|[k' v'] l IH]; simpl.
  - intros _ Hin. by apply elem_of_nil in Hin.
  - intros Hnd Hin. apply NoDup_cons in Hnd as [Hk' Hnd].
    apply elem_of_cons in Hin as [[= -> ->]|Hin].
    + by rewrite decide_True.
    + destruct (decide (k = k')) as [->|Hne]; [| by apply IH].
      destruct Hk'. by apply elem_od_keys with v.
Qed.

Lemma od_get_set l k k' v :
  od_get k (od_set k' v l) = if decide (k = k') then Some v else od_get k l.
Proof.
  induction l as [|[k0 v0] l IH]; simpl.
  - by destruct (decide (k = k')).
  - destruct (decide (k' = k0)) as [->|Hne]; simpl.
    + by destruct (decide (k = k0)).
    + destruct (decide (k = k0)) as [->|Hne'].
      * by rewrite decide_False by done.
      * apply IH.
Qed.

Lemma od_set_fresh l k v : k ∉ od_keys l → od_set k v l = l ++ [(k, v)].
Proof.
  induction l as [|[k0 v0] l IH]; simpl; [done |].
  rewrite not_elem_of_cons. intros [Hne Hnin].
  rewrite decide_False by done. by rewrite IH.
Qed.

Lemma od_keys_set_present l k v :
  k ∈ od_keys l → od_keys (od_set k v l) = od_keys l.
Proof.
  induction l as [|[k0 v0] l IH]; simpl.
  - intros Hin. by apply elem_of_nil in Hin.
  - intros Hin. destruct (decide (k = k0)) as [->|Hne]; simpl; [done |].
    f_equal. apply IH. apply elem_of_cons in Hin as [|]; done.
Qed.

Lemma od_keys_set l k v :
  od_keys (od_set k v l) =
    if decide (k ∈ od_keys l) then od_keys l else od_keys l ++ [k].
Proof.
  destruct (decide _) as [Hin|Hnin].
  - by apply od_keys_set_present.
  - rewrite od_set_fresh by done. unfold od_keys. by rewrite map_app.
Qed.

Lemma od_set_NoDup l k v : NoDup (od_keys l) → NoDup (od_keys (od_set k v l)).
Proof.
  intros Hnd. rewrite od_keys_set. destruct (decide _) as [|Hnin]; [done |].
  apply NoDup_app. split_and!; [done | | apply NoDup_singleton].
  intros x Hx Hx'. apply list_elem_of_singleton in Hx' as ->. done.
Qed.

Lemma elem_od_set l k v k' v' :
  (k', v') ∈ od_set k v l → (k', v') = (k, v) ∨ (k', v') ∈ l.
Proof.
  induction l as [|[k0 v0] l IH]; simpl.
  - intros Hin. apply list_elem_of_singleton in Hin. by left.
  - destruct (decide (k = k0)) as [->|Hne]; intros Hin;
      apply elem_of_cons in Hin as [Heq|Hin].
    + by left.
    + right. by right.
    + right. rewrite Heq. left.
    + destruct (IH Hin) as [|]; [by left | right; by right].
Qed.

Lemma elem_od_del l k k' v' : (k', v') ∈ od_del k l → (k', v') ∈ l.
Proof.
  induction l as [|[k0 v0] l IH]; simpl; [done |].
  destruct (decide (k = k0)) as [->|Hne]; intros Hin.
  - by right.
  - apply elem_of_cons in Hin as [->|Hin]; [left | right; by apply IH].
Qed.

Lemma od_del_keys_sub l k x : x ∈ od_keys (od_del k l) → x ∈ od_keys l.
Proof.
  intros Hin. apply list_elem_of_fmap in Hin as [[k' v'] [-> Hin]].
  apply elem_od_del in Hin. by apply elem_od_keys with v'.
Qed.

Lemma od_del_NoDup l k : NoDup (od_keys l) → NoDup (od_keys (od_del k l)).
Proof.
  induction l as [|[k0 v0] l IH]; simpl; [done |].
  intros Hnd. apply NoDup_cons in Hnd as [Hk0 Hnd].
  destruct (decide (k = k0)) as [->|Hne]; [done |]. simpl.
  apply NoDup_cons. split; [| by apply IH].
  intros Hin. apply Hk0. by apply od_del_keys_sub with k.
Qed.

Lemma od_get_del_ne l k k' : k ≠ k' → od_get k (od_del k' l) = od_get k l.
Proof.
  intros Hne. induction l as [|[k0 v0] l IH]; simpl; [done |].
  destruct (decide (k' = k0)) as [->|Hne']; simpl.
  - by rewrite decide_False by done.
  - destruct (decide (k = k0)); [done | apply IH].
Qed.

Lemma od_get_del_eq l k : NoDup (od_keys l) → od_get k (od_del k l) = None.
Proof.
  induction l as [|[k0 v0] l IH]; simpl; [done |].
  intros Hnd. apply NoDup_cons in Hnd as [Hk0 Hnd].
  destruct (decide (k = k0)) as [->|Hne]; simpl.
  - by apply od_get_None.
  - rewrite decide_False by done. by apply IH.
Qed.

Lemma od_del_length l k :
  k ∈ od_keys l → Z.of_nat (length (od_del k l)) = Z.of_nat (length l) - 1.
Proof.
  induction l as [|[k0 v0] l IH]; simpl.
  - intros Hin. by apply elem_of_nil in Hin.
  - intros Hin. destruct (decide (k = k0)) as [->|Hne]; simpl; [lia |].
    apply elem_of_cons in Hin as [|Hin]; [done |].
    specialize (IH Hin). lia.
Qed.

End ordered_dict_facts.

(** ** Identity generation and admission *)

Section admission_facts.
Context `{Collaborators}.

Lemma spawn_eq s :
  NPOP (config s) ≠ 0 →
  spawn s =
    (Ok (Some (entID s + 1),
         hash (pretty (entID s)) `mod` NPOP (config s),
         "Neural_"%string),
     set_entID (λ n, n + 1) s).
Proof.
  intros Hn. unfold spawn, bind, gets, modify, ret; simpl.
  by rewrite decide_False by done.
Qed.

Lemma spawn_zero s :
  NPOP (config s) = 0 → spawn s = (Raise ZeroDivisionError, s).
Proof.
  intros Hn. unfold spawn, bind, gets, modify, ret; simpl.
  by rewrite decide_True by done.
Qed.

(** [step_admit] when the population count is not zero: the tick and the
    identifier counter move by one, then the ledger decides. *)
Lemma step_admit_eq s :
  NPOP (config s) ≠ 0 →
  step_admit s =
    let s1 := set_entID (λ n, n + 1) (set_tick (λ t, t + 1) s) in
    let pop := hash (pretty (entID s)) `mod` NPOP (config s) in
    match Spawner_spawn (Some (entID s + 1)) pop "Neural_" s1 with
    | (Ok _, s2) => (Ok tt, s2)
    | (Raise e, s2) => (Raise e, s2)
    end.
Proof.
  intros Hn. unfold step_admit.
  rewrite (bind_run _ _ s tt (set_tick (λ t, t + 1) s)) by done.
  erewrite bind_run by (by apply spawn_eq).
  cbv beta iota zeta.
  rewrite bool_decide_true by done.
  unfold assert_. rewrite (bind_run (ret tt) _ _ tt _ eq_refl).
  unfold bind, ret.
  by destruct (Spawner_spawn _ _ _ _) as [[?|?] ?].
Qed.

Lemma step_admit_zero s :
  NPOP (config s) = 0 →
  step_admit s = (Raise ZeroDivisionError, set_tick (λ t, t + 1) s).
Proof.
  intros Hn. unfold step_admit.
  rewrite (bind_run _ _ s tt (set_tick (λ t, t + 1) s)) by done.
  by erewrite bind_run_raise by (by apply spawn_zero).
Qed.

(** The state [step_admit] leaves, whatever its outcome. *)
Lemma step_admit_state s :
  NPOP (config s) ≠ 0 →
  (step_admit s).2 =
    (Spawner_spawn (Some (entID s + 1))
       (hash (pretty (entID s)) `mod` NPOP (config s)) "Neural_"
       (set_entID (λ n, n + 1) (set_tick (λ t, t + 1) s))).2.
Proof.
  intros Hn. rewrite step_admit_eq by done. cbv zeta.
  by destruct (Spawner_spawn _ _ _ _) as [[?|?] ?].
Qed.

(** A property that looks at neither the ledger, the world nor the entity
    map is kept by [Spawner.spawn]. *)
Lemma Spawner_spawn_frame (P : Realm → Prop) iden pop name :
  (∀ f s, P s → P (set_world f s)) →
  (∀ f s, P s → P (set_spawner f s)) →
  (∀ f s, P s → P (set_desciples f s)) →
  preserves P (Spawner_spawn iden pop name).
Proof.
  intros Pw Ps Pd s Hs. destruct iden as [iden|]; [| done].
  rewrite Spawner_spawn_eq. cbv zeta.
  repeat case_bool_decide; try by apply Ps.
  repeat (destruct (decide _); [by apply Ps |]).
  destruct (ent_in _ _ _); simpl; auto.
Qed.

Lemma on_spawner_frame {A} (P : Realm → Prop) (m : M Spawner A) :
  (∀ f s, P s → P (set_spawner f s)) → preserves P (on_spawner m).
Proof.
  intros Ps s Hs. unfold on_spawner.
  destruct (m (spawner s)) as [r sp]. simpl. by apply Ps.
Qed.

(** The tick counter moves by exactly one per [step] call. *)
Lemma step_tick decisions s : tick (step decisions s).2 = tick s + 1.
Proof.
  apply (step_post (λ s', tick s' = tick s + 1)); try done.
  - intros pop. by apply on_spawner_frame.
  - destruct (decide (NPOP (config s) = 0)) as [Hz|Hnz].
    + by rewrite step_admit_zero.
    + rewrite step_admit_state by done.
      by apply (Spawner_spawn_frame (λ s', tick s' = tick s + 1)).
Qed.

(** The identifier counter moves by exactly one per [step] call. *)
Lemma step_entID decisions s :
  NPOP (config s) ≠ 0 → entID (step decisions s).2 = entID s + 1.
Proof.
  intros Hnz. apply (step_post (λ s', entID s' = entID s + 1)); try done.
  - intros pop. by apply on_spawner_frame.
  - rewrite step_admit_state by done.
    by apply (Spawner_spawn_frame (λ s', entID s' = entID s + 1)).
Qed.

Lemma step_admit_built_from cfg : preserves (built_from cfg) step_admit.
Proof.
  intros s (Hc & Hn & Hsz). subst cfg. rewrite step_admit_state by done.
  unfold built_from.
  pose proof (Spawner_spawn_sizes (Some (entID s + 1))
    (hash (pretty (entID s)) `mod` NPOP (config s)) "Neural_"
    (set_entID (λ n, n + 1) (set_tick (λ t, t + 1) s))) as Hs.
  pose proof (Spawner_spawn_config (Some (entID s + 1))
    (hash (pretty (entID s)) `mod` NPOP (config s)) "Neural_"
    (set_entID (λ n, n + 1) (set_tick (λ t, t + 1) s))) as Hcfg.
  unfold sizes in Hs. simpl in Hs, Hcfg. rewrite Hcfg.
  injection Hs as -> -> -> _. done.
Qed.

Lemma step_built_from cfg decisions :
  preserves (built_from cfg) (step decisions).
Proof.
  apply step_preserves; try done.
  - intros pop s (Hc & Hn & Hsz). unfold built_from, on_spawner.
    pose proof (Spawner_cull_sizes pop (spawner s)) as Hs.
    destruct (Spawner_cull pop (spawner s)) as [r sp]; simpl in *.
    unfold sizes in Hs. injection Hs as -> -> -> _. done.
  - apply step_admit_built_from.
Qed.

Lemma Realm_init_built_from cfg idx s :
  Realm_init cfg idx = Ok s → built_from cfg s.
Proof.
  unfold Realm_init, Spawner_init.
  destruct (decide (NPOP cfg = 0)); [done |]. intros [= <-]. done.
Qed.

Lemma reachable_built_from cfg idx s :
  reachable cfg idx s → built_from cfg s.
Proof.
  induction 1 as [s Hinit | s d _ IH].
  - by apply Realm_init_built_from with idx.
  - by apply step_built_from.
Qed.

End admission_facts.

(** ** Invariants of the reachable states *)

Section invariants.
Context `{Collaborators}.

Lemma Spawner_init_ledger cfg sp :
  0 ≤ NENT cfg → 0 < NPOP cfg → Spawner_init cfg = Ok sp → ledger_inv sp.
Proof.
  intros Hn Hp. unfold Spawner_init.
  destruct (decide (NPOP cfg = 0)); [done |]. intros [= <-].
  unfold ledger_inv; simpl. split_and!; try lia.
  - by apply Z.div_pos.
  - intros p c. by rewrite lookup_empty.
  - apply sum_counts_empty.
Qed.

Lemma step_ledger decisions :
  preserves (λ s, ledger_inv (spawner s)) (step decisions).
Proof.
  apply step_preserves; try done.
  - intros pop s Hs. unfold on_spawner.
    pose proof (Spawner_cull_ledger pop (spawner s) Hs) as Hc.
    by destruct (Spawner_cull pop (spawner s)) as [r sp].
  - intros s Hs. destruct (decide (NPOP (config s) = 0)) as [Hz|Hnz].
    + by rewrite step_admit_zero.
    + rewrite step_admit_state by done. by apply Spawner_spawn_ledger.
Qed.

Lemma reachable_ledger cfg idx s :
  0 ≤ NENT cfg → 0 < NPOP cfg →
  reachable cfg idx s → ledger_inv (spawner s).
Proof.
  intros Hn Hp. induction 1 as [s Hinit | s d _ IH].
  - unfold Realm_init in Hinit.
    destruct (Spawner_init cfg) as [sp|] eqn:Hsp; [| done].
    injection Hinit as <-. simpl. by apply Spawner_init_ledger with cfg.
  - by apply step_ledger.
Qed.

Lemma desc_wf_del k s : desc_wf s → desc_wf (set_desciples (od_del k) s).
Proof.
  intros [Hnd Hk]. split; simpl.
  - by apply od_del_NoDup.
  - intros k' ent Hin. apply Hk. by apply elem_od_del with k.
Qed.

Lemma Spawner_spawn_desc_wf iden pop name s :
  desc_wf s → iden ≤ entID s →
  desc_wf (Spawner_spawn (Some iden) pop name s).2.
Proof.
  intros [Hnd Hk] Hid. rewrite Spawner_spawn_eq. cbv zeta.
  repeat case_bool_decide; try done.
  repeat (destruct (decide _); [done |]).
  destruct (ent_in _ _ _); [done |]. split; simpl.
  - by apply od_set_NoDup.
  - intros k ent Hin. apply elem_od_set in Hin as [[= -> ->]|Hin].
    + rewrite Player_entID. done.
    + by apply Hk.
Qed.

Lemma step_admit_desc_wf : preserves desc_wf step_admit.
Proof.
  intros s Hs. destruct (decide (NPOP (config s) = 0)) as [Hz|Hnz].
  - by rewrite step_admit_zero.
  - rewrite step_admit_state by done. apply Spawner_spawn_desc_wf.
    + destruct Hs as [Hnd Hk]. split; [done |]. simpl.
      intros k ent Hin. destruct (Hk k ent Hin). split; [done | lia].
    + done.
Qed.

Lemma step_desc_wf decisions : preserves desc_wf (step decisions).
Proof.
  apply step_preserves; try done.
  - intros k s. apply desc_wf_del.
  - intros pop. by apply on_spawner_frame.
  - apply step_admit_desc_wf.
Qed.

Lemma reachable_desc_wf cfg idx s : reachable cfg idx s → desc_wf s.
Proof.
  induction 1 as [s Hinit | s d _ IH].
  - unfold Realm_init in Hinit.
    destruct (Spawner_init cfg) as [sp|]; [| done].
    injection Hinit as <-. split; simpl; [apply NoDup_nil_2 |].
    intros k ent Hin. by apply elem_of_nil in Hin.
  - by apply step_desc_wf.
Qed.

Lemma reachable_tick cfg idx s : reachable cfg idx s → 0 ≤ tick s.
Proof.
  induction 1 as [s Hinit | s d _ IH].
  - unfold Realm_init in Hinit.
    destruct (Spawner_init cfg) as [sp|]; [| done]. by injection Hinit as <-.
  - rewrite step_tick. lia.
Qed.

End invariants.

(** ** Which exceptions a computation can raise *)

Section never_facts.
Context {S : Type}.

Lemma never_ret {A} e (a : A) : never e (@ret S A a).
Proof. by intros s. Qed.

Lemma never_gets {A} e (f : S → A) : never e (gets f).
Proof. by intros s. Qed.

Lemma never_modify e (f : S → S) : never e (modify f).
Proof. by intros s. Qed.

Lemma never_raise {A} e e' : e' ≠ e → never e (@raise S A e').
Proof. intros Hne s [= ]. done. Qed.

Lemma never_assert e e' b : e' ≠ e → never e (@assert_ S b e').
Proof. intros Hne. destruct b; [apply never_ret | by apply never_raise]. Qed.

Lemma never_bind_val {A B} e (m : M S A) (f : A → M S B) :
  never e m → (∀ a s s1, m s = (Ok a, s1) → (f a s1).1 ≠ Raise e) →
  never e (bind m f).
Proof.
  intros Hm Hf s. unfold bind. specialize (Hm s).
  destruct (m s) as [[a|e'] s1] eqn:Hms; simpl in *.
  - apply (Hf a s s1 Hms).
  - intros [= ->]. by apply Hm.
Qed.

Lemma never_bind {A B} e (m : M S A) (f : A → M S B) :
  never e m → (∀ a, never e (f a)) → never e (bind m f).
Proof.
  intros Hm Hf. apply never_bind_val; [done |]. intros a s s1 _. apply Hf.
Qed.

Lemma never_for {A} e (l : list A) (body : A → M S unit) :
  (∀ x, never e (body x)) → never e (for_ l body).
Proof.
  intros Hb. induction l as [|x l IH]; simpl; [apply never_ret |].
  apply never_bind; [apply Hb | intros; apply IH].
Qed.

Lemma never_foldM {A B} e (body : B → A → M S B) l acc :
  (∀ b x, never e (body b x)) → never e (foldM body l acc).
Proof.
  intros Hb. revert acc. induction l as [|x l IH]; intros acc; simpl.
  - apply never_ret.
  - apply never_bind; [apply Hb | intros; apply IH].
Qed.

End never_facts.

Ltac never_step :=
  lazymatch goal with
  | |- never _ (ret _) => apply never_ret
  | |- never _ (gets _) => apply never_gets
  | |- never _ (modify _) => apply never_modify
  | |- never _ (raise _) => apply never_raise; discriminate
  | |- never _ (assert_ _ _) => apply never_assert; discriminate
  | |- never _ (bind _ _) => apply never_bind; [| intros ?]
  | |- never _ (for_ _ _) => apply never_for; intros ?; cbv beta
  | |- never _ (foldM _ _ _) => apply never_foldM; intros ? ?; cbv beta
  | |- never _ (match ?x with _ => _ end) => destruct x
  end.

Section never_IdenNone.
Context `{Collaborators}.

Lemma never_on_spawner {A} e (m : M Spawner A) :
  never e m → never e (on_spawner m).
Proof.
  intros Hm s. unfold on_spawner. specialize (Hm (spawner s)).
  by destruct (m (spawner s)) as [r sp].
Qed.

Lemma never_pops_read e pop : never e (pops_read pop).
Proof. intros sp. unfold pops_read. by destruct (pops sp !! pop). Qed.

Lemma never_lookup_ent e k : (∀ k', e ≠ KeyError k') → never e (lookup_ent k).
Proof.
  intros Hk. unfold lookup_ent. repeat never_step.
  apply never_raise. intros Heq. by apply (Hk k).
Qed.

(** The check on the identifier in [step] is the only place that raises
    [AssertIdenNone_step]; the other methods never do. *)
Lemma Spawner_spawn_never_IdenNone iden pop name :
  never AssertIdenNone_step (Spawner_spawn iden pop name).
Proof.
  unfold Spawner_spawn. destruct iden as [iden|]; [| never_step].
  repeat never_step; apply never_on_spawner, never_pops_read.
Qed.

Lemma stepEnts_never_IdenNone decisions :
  never AssertIdenNone_step (stepEnts decisions).
Proof.
  unfold stepEnts, stepAll, act, cullDead, cullDead_body, scan_body.
  repeat never_step;
    try (apply never_lookup_ent; discriminate).
  apply never_on_spawner. unfold Spawner_cull.
  repeat never_step; apply never_pops_read.
Qed.

Lemma step_admit_never_IdenNone : never AssertIdenNone_step step_admit.
Proof.
  unfold step_admit. never_step; [never_step |].
  apply never_bind_val.
  - unfold spawn. repeat never_step.
  - intros [[iden pop] name] s s1 Hsp.
    assert (iden ≠ None) as Hiden.
    { destruct (decide (NPOP (config s) = 0)) as [Hz|Hnz].
      - rewrite spawn_zero in Hsp by done. done.
      - rewrite spawn_eq in Hsp by done. by injection Hsp as <- _ _ _. }
    revert s1 Hsp. intros s1 _. revert s1.
    change (never AssertIdenNone_step
              (assert_ (bool_decide (iden ≠ None)) AssertIdenNone_step ;;
               Spawner_spawn iden pop name ;; ret tt)).
    rewrite bool_decide_true by done. unfold assert_.
    repeat never_step. apply Spawner_spawn_never_IdenNone.
Qed.

Lemma step_never_IdenNone decisions :
  never AssertIdenNone_step (step decisions).
Proof.
  unfold step, step_packets, stepEnv, getStims, getStims_body.
  repeat never_step;
    auto using step_admit_never_IdenNone, stepEnts_never_IdenNone.
Qed.

End never_IdenNone.

(** ** The scan of the decided entities *)

Section scan_facts.
Context `{Collaborators}.
Implicit Types (pk : list (Z * Packet)) (s : Realm).

Lemma elem_set_add {A} `{EqDecision A} (x y : A) l :
  y ∈ set_add x l ↔ y = x ∨ y ∈ l.
Proof.
  unfold set_add. destruct (decide (x ∈ l)) as [Hin|Hnin].
  - split; [by right | intros [->|]; done].
  - rewrite elem_of_app, list_elem_of_singleton. tauto.
Qed.

Lemma set_add_NoDup {A} `{EqDecision A} (x : A) l :
  NoDup l → NoDup (set_add x l).
Proof.
  intros Hnd. unfold set_add. destruct (decide (x ∈ l)) as [Hin|Hnin]; [done |].
  apply NoDup_app. split_and!; [done | | apply NoDup_singleton].
  intros y Hy Hy'. apply list_elem_of_singleton in Hy' as ->. done.
Qed.

Lemma od_keys_pk_update pk k f :
  od_keys (pk_update k f pk) =
    if decide (k ∈ od_keys pk) then od_keys pk else od_keys pk ++ [k].
Proof. unfold pk_update. apply od_keys_set. Qed.

Lemma od_get_pk_update pk k k' f :
  od_get k' (pk_update k f pk) =
    if decide (k' = k) then Some (f (default Packet_new (od_get k pk)))
    else od_get k' pk.
Proof. unfold pk_update. apply od_get_set. Qed.

Lemma elem_pk_update pk k f k' p' :
  (k', p') ∈ pk_update k f pk →
  (k' = k ∧ p' = f (default Packet_new (od_get k pk))) ∨ (k', p') ∈ pk.
Proof.
  unfold pk_update. intros Hin. apply elem_od_set in Hin as [[= -> ->]|Hin];
    [by left | by right].
Qed.

Lemma pk_update_keys_mono pk k f x :
  x ∈ od_keys pk → x ∈ od_keys (pk_update k f pk).
Proof.
  intros Hx. rewrite od_keys_pk_update. destruct (decide _); [done |].
  apply elem_of_app. by left.
Qed.

Lemma pk_update_keys_self pk k f : k ∈ od_keys (pk_update k f pk).
Proof.
  rewrite od_keys_pk_update. destruct (decide _); [done |].
  apply elem_of_app. right. by apply list_elem_of_singleton.
Qed.

Lemma pk_update_NoDup pk k f :
  NoDup (od_keys pk) → NoDup (od_keys (pk_update k f pk)).
Proof. unfold pk_update. apply od_set_NoDup. Qed.

Lemma lookup_ent_eq k s :
  lookup_ent k s =
    match od_get k (desciples s) with
    | Some ent => (Ok ent, s)
    | None => (Raise (KeyError k), s)
    end.
Proof.
  unfold lookup_ent, bind, gets. by destruct (od_get k (desciples s)).
Qed.

(** One iteration of the scan, as a function of the state it reads. *)
Lemma scan_body_eq dead dones pk k s :
  scan_body (dead, dones, pk) k s =
    match od_get k (desciples s) with
    | None => (Raise (KeyError k), s)
    | Some ent =>
        if alive (world s) ent
        then (Ok (dead, dones,
                  pk_update k (set_pk_stim (StimEnt ent))
                    (pk_update k (set_pk_reward (Some (reward k))) pk)), s)
        else (Ok (set_add (entID_of ent) dead,
                  set_add (serial (world s) ent) dones, pk), s)
    end.
Proof.
  unfold scan_body. unfold bind at 1. rewrite lookup_ent_eq.
  destruct (od_get k (desciples s)) as [ent|]; [| done].
  unfold bind, gets, postmortem; simpl.
  by destruct (alive (world s) ent).
Qed.

Lemma scan_spec L l : ∀ acc acc' s s',
  (∀ k, k ∈ l → k ∈ L) →
  scan_inv L s acc →
  foldM scan_body l acc s = (Ok acc', s') →
  s' = s ∧ scan_inv L s acc' ∧ scan_cover l s acc' ∧
  (∀ x, x ∈ acc.1.1 → x ∈ acc'.1.1) ∧
  (∀ x, x ∈ od_keys acc.2 → x ∈ od_keys acc'.2).
Proof.
  induction l as [|k l IH]; intros acc acc' s s' HL Hinv Hrun.
  - injection Hrun as <- <-. split_and!; try done.
    destruct acc as [[dead dones] pk]. intros k ent Hk.
    by apply elem_of_nil in Hk.
  - cbn [foldM] in Hrun. apply bind_Ok in Hrun as (acc1 & s1 & Hbody & Hrest).
    destruct acc as [[dead dones] pk].
    rewrite scan_body_eq in Hbody.
    destruct (od_get k (desciples s)) as [ent|] eqn:Hget; [| done].
    destruct Hinv as (Hdead & Hdones & Hpk & Hnd & Hndpk).
    assert (HkL : k ∈ L) by (apply HL; left).
    assert (HlL : ∀ k', k' ∈ l → k' ∈ L) by (intros k' Hk'; apply HL; by right).
    destruct (alive (world s) ent) eqn:Halive; injection Hbody as <- <-.
    + (* alive: a packet *)
      assert (Hinv1 : scan_inv L s (dead, dones,
                pk_update k (set_pk_stim (StimEnt ent))
                  (pk_update k (set_pk_reward (Some (reward k))) pk))).
      { split_and!; try done.
        - intros k' p' Hin.
          apply elem_pk_update in Hin as [[-> ->]|Hin].
          { split_and!; [done | | eauto]. simpl.
            rewrite od_get_pk_update, decide_True by done. done. }
          apply elem_pk_update in Hin as [[-> ->]|Hin]; [| by apply Hpk].
          split_and!; [done | done | eauto].
        - by do 2 apply pk_update_NoDup. }
      destruct (IH _ acc' s s' HlL Hinv1 Hrest)
        as (-> & Hinv' & Hcov' & Hmd & Hmp).
      split_and!; try done.
      * destruct acc' as [[dead' dones'] pk'].
        intros k' ent' Hk' Hget'. simpl in *.
        apply elem_of_cons in Hk' as [->|Hk']; [| by apply Hcov'].
        rewrite Hget in Hget'. injection Hget' as <-. rewrite Halive.
        apply Hmp. apply pk_update_keys_self.
      * intros x Hx. apply Hmp. simpl in *. by do 2 apply pk_update_keys_mono.
    + (* dead *)
      assert (Hinv1 : scan_inv L s (set_add (entID_of ent) dead,
                set_add (serial (world s) ent) dones, pk)).
      { split_and!; try done.
        - intros x Hx. apply elem_set_add in Hx as [->|Hx]; [| by apply Hdead].
          exists k, ent. done.
        - intros x Hx. apply elem_set_add in Hx as [->|Hx]; [| by apply Hdones].
          exists k, ent. done.
        - by apply set_add_NoDup. }
      destruct (IH _ acc' s s' HlL Hinv1 Hrest)
        as (-> & Hinv' & Hcov' & Hmd & Hmp).
      split_and!; try done.
      * destruct acc' as [[dead' dones'] pk'].
        intros k' ent' Hk' Hget'. simpl in *.
        apply elem_of_cons in Hk' as [->|Hk']; [| by apply Hcov'].
        rewrite Hget in Hget'. injection Hget' as <-. rewrite Halive.
        apply Hmd. apply elem_set_add. by left.
      * intros x Hx. apply Hmd. simpl in *. apply elem_set_add. by right.
Qed.

End scan_facts.

(** ** Prioritisation and the order of application *)

Section prioritize_facts.
Context `{Collaborators}.

(** [prioritize] is one pass over the submitted actions. *)
Lemma prioritize_submitted decisions :
  prioritize decisions =
    fold_left (λ actions x, prioritize_put x.1 actions x.2)
              (submitted decisions) [].
Proof.
  unfold prioritize, submitted. generalize (@nil (Z * list (Z * (Atn * Args)))).
  induction decisions as [|[e atns] d IH]; intros acc; simpl; [done |].
  rewrite fold_left_app, IH. f_equal.
  clear. revert acc. induction atns as [|item atns IH]; intros acc; simpl; [done |].
  apply IH.
Qed.

Lemma tier_entry_put actions e item p' e' :
  tier_entry (prioritize_put e actions item) p' e' =
    if decide (p' = priority item.1 ∧ e' = e) then Some item
    else tier_entry actions p' e'.
Proof.
  unfold tier_entry, prioritize_put. rewrite od_get_set.
  destruct (decide (p' = priority item.1)) as [->|Hp]; simpl.
  - rewrite od_get_set. destruct (decide (e' = e)) as [->|He].
    + by rewrite decide_True.
    + rewrite decide_False by (intros [_ ?]; done).
      by destruct (od_get (priority item.1) actions).
  - by rewrite decide_False by (intros [? _]; done).
Qed.

(** Overwriting: of the actions an entity submits with one priority,
    [prioritize] keeps the one it meets last. *)
Lemma prioritize_keeps_last decisions p e :
  tier_entry (prioritize decisions) p e =
    last (filter (λ x, priority x.2.1 = p ∧ x.1 = e) (submitted decisions))
      ≫= λ x, Some x.2.
Proof.
  rewrite prioritize_submitted.
  induction (submitted decisions) as [|x l IH] using rev_ind; [done |].
  rewrite fold_left_app. simpl. rewrite tier_entry_put, filter_app.
  destruct (decide (p = priority x.2.1 ∧ e = x.1)) as [[-> ->]|Hne].
  - rewrite filter_cons_True by done. rewrite filter_nil, last_snoc. done.
  - rewrite filter_cons_False by (intros [? ?]; apply Hne; done).
    rewrite filter_nil, app_nil_r. apply IH.
Qed.

(** The tiers appear in the order in which their priorities are first
    met among the submitted actions. *)
Lemma prioritize_tier_order decisions :
  od_keys (prioritize decisions) =
    fold_left (λ seen x, set_add (priority x.2.1) seen)
              (submitted decisions) [].
Proof.
  rewrite prioritize_submitted.
  induction (submitted decisions) as [|x l IH] using rev_ind; [done |].
  rewrite !fold_left_app. simpl. rewrite <- IH.
  unfold prioritize_put. rewrite od_keys_set. unfold set_add.
  by destruct (decide _).
Qed.

Lemma bind_congr {S A B} (m : M S A) (k1 k2 : A → M S B) s :
  (∀ a s1, k1 a s1 = k2 a s1) → bind m k1 s = bind m k2 s.
Proof. intros Hk. unfold bind. destruct (m s) as [[a|e] s1]; auto. Qed.

Lemma bind_congr_l {S A B} (m1 m2 : M S A) (k : A → M S B) s :
  m1 s = m2 s → bind m1 k s = bind m2 k s.
Proof. intros Hm. unfold bind. by rewrite Hm. Qed.

Lemma for_app {S A} (l1 l2 : list A) (body : A → M S unit) s :
  for_ (l1 ++ l2) body s = (for_ l1 body ;; for_ l2 body) s.
Proof.
  revert s. induction l1 as [|x l1 IH]; intros s; simpl; [done |].
  unfold bind. destruct (body x s) as [[[]|e] s1]; [| done].
  rewrite IH. done.
Qed.

(** [act] makes exactly the calls of [act_calls], in that order. *)
Lemma act_act_calls actions s :
  act actions s =
    for_ (act_calls actions)
         (λ c, ent <- lookup_ent c.1.2 ;; modify (set_world (ent_act ent c.2))) s.
Proof.
  unfold act, act_calls. revert s.
  induction actions as [|[prio tups] actions IH]; intros s; simpl; [done |].
  rewrite for_app.
  etransitivity; [| apply bind_congr; intros ? s1; apply IH].
  apply bind_congr_l. clear IH actions.
  revert s. induction tups as [|[e item] tups IH]; intros s; simpl; [done |].
  apply bind_congr. intros ? s1. apply IH.
Qed.

End prioritize_facts.

(** ** The phases of a tick *)

Section pipeline_facts.
Context `{Collaborators}.
Implicit Types (pk : list (Z * Packet)) (s : Realm).

Lemma stepAll_world_only decisions s :
  realm_part (stepAll decisions s).2 = realm_part s.
Proof.
  apply (preserves_for (λ s', realm_part s' = realm_part s)); [| done].
  intros [k actions] _. repeat pres_step.
  - apply lookup_ent_preserves.
  - by apply preserves_modify.
Qed.

Lemma act_world_only actions s :
  realm_part (act actions s).2 = realm_part s.
Proof. by apply (act_preserves (λ s', realm_part s' = realm_part s)). Qed.

Lemma stepEnv_eq s :
  stepEnv s =
    (Ok tt,
     let w := env_step (world_step (od_values (desciples s)) (world s)) in
     set_env (EnvNp (env_np w)) (set_world (λ _, w) s)).
Proof. done. Qed.

(** One iteration of [cullDead] that returns. *)
Lemma cullDead_body_Ok k s s' :
  cullDead_body k s = (Ok tt, s') →
  k ∈ od_keys (desciples s) ∧
  desciples s' = od_del k (desciples s) ∧
  ents (spawner s') = ents (spawner s) - 1 ∧
  config s' = config s ∧ entID s' = entID s.
Proof.
  unfold cullDead_body. intros Hrun.
  apply bind_Ok in Hrun as (ent & s1 & Hlook & Hrun).
  rewrite lookup_ent_eq in Hlook.
  destruct (od_get k (desciples s)) as [ent'|] eqn:Hget; [| done].
  injection Hlook as <- <-.
  apply bind_Ok in Hrun as (w & s1 & [= <- <-] & Hrun).
  apply bind_Ok in Hrun as ([] & s1 & [= <-] & Hrun).
  apply bind_Ok in Hrun as (w1 & s2 & [= <- <-] & Hrun).
  apply bind_Ok in Hrun as ([] & s2 & Hcull & Hrun).
  apply bind_Ok in Hrun as (d & s3 & [= <- <-] & Hrun).
  unfold on_spawner in Hcull. simpl in Hcull.
  rewrite Spawner_cull_eq in Hcull. cbv zeta in Hcull.
  repeat case_bool_decide; try done.
  injection Hcull as <-. simpl in Hrun. rewrite Hget in Hrun.
  injection Hrun as <-. simpl. split_and!; try done.
  - apply od_get_is_Some. eauto.
  - by destruct (decide _).
Qed.

Lemma cull_loop_spec l : ∀ s s',
  for_ l cullDead_body s = (Ok tt, s') →
  (∀ k, k ∉ l → od_get k (desciples s') = od_get k (desciples s)) ∧
  (NoDup (od_keys (desciples s)) →
     NoDup (od_keys (desciples s')) ∧
     ∀ k, k ∈ l → od_get k (desciples s') = None) ∧
  (∀ k, k ∈ od_keys (desciples s') → k ∈ od_keys (desciples s)) ∧
  ents (spawner s') - Z.of_nat (length (desciples s'))
    = ents (spawner s) - Z.of_nat (length (desciples s)) ∧
  config s' = config s ∧ entID s' = entID s.
Proof.
  induction l as [|k l IH]; intros s s' Hrun.
  - injection Hrun as <-. split_and!; try done.
    intros Hnd. split; [done |]. intros k Hk. by apply elem_of_nil in Hk.
  - cbn [for_] in Hrun. apply bind_Ok in Hrun as ([] & s1 & Hbody & Hrest).
    apply cullDead_body_Ok in Hbody as (Hk & Hd & He & Hc & Hid).
    destruct (IH s1 s' Hrest) as (Hget & Hnd & Hsub & Hlen & Hc' & Hid').
    assert (Hsub1 : ∀ x, x ∈ od_keys (desciples s') → x ∈ od_keys (desciples s)).
    { intros x Hx. apply Hsub in Hx. rewrite Hd in Hx.
      by apply od_del_keys_sub with k. }
    split_and!.
    + intros k' Hk'. apply not_elem_of_cons in Hk' as [Hne Hk'].
      rewrite Hget by done. rewrite Hd. by apply od_get_del_ne.
    + intros Hnds.
      assert (Hnd1 : NoDup (od_keys (desciples s1)))
        by (rewrite Hd; by apply od_del_NoDup).
      destruct (Hnd Hnd1) as [Hnd' Hnone]. split; [done |].
      intros k' Hk'. apply elem_of_cons in Hk' as [->|Hk']; [| by apply Hnone].
      apply od_get_None. intros Hin. apply Hsub in Hin.
      apply od_get_is_Some in Hin as [ent Hent].
      rewrite Hd, od_get_del_eq in Hent by done. done.
    + done.
    + rewrite Hlen, He, Hd. rewrite od_del_length by done. lia.
    + congruence.
    + congruence.
Qed.

Lemma getStims_eq pk s : getStims pk s = foldM getStims_body (desciples s) pk s.
Proof. done. Qed.

Lemma getStims_body_eq pk k ent s :
  getStims_body pk (k, ent) s =
    (Ok (pk_update k
           (set_pk_stim
              (StimPair (env_stim (world s) (pos (world s) ent)
                           (STIM (config s))) ent)) pk), s).
Proof. done. Qed.

Lemma getStims_loop_spec (rew : Z → option Z) l : ∀ pk s,
  ∃ pk', foldM getStims_body l pk s = (Ok pk', s) ∧
  (∀ k, k ∈ od_keys pk → k ∈ od_keys pk') ∧
  (∀ k, k ∈ od_keys pk' → k ∈ od_keys pk ∨ k ∈ od_keys l) ∧
  (∀ k, k ∉ od_keys l → od_get k pk' = od_get k pk) ∧
  ((∀ k p, (k, p) ∈ pk → pk_reward p = rew k) →
   (∀ k, k ∈ od_keys l → k ∉ od_keys pk → rew k = None) →
   ∀ k p, (k, p) ∈ pk' → pk_reward p = rew k) ∧
  (NoDup (od_keys l) → ∀ k ent, (k, ent) ∈ l →
     ∃ p, od_get k pk' = Some p ∧
          pk_stim p = StimPair (env_stim (world s) (pos (world s) ent)
                                  (STIM (config s))) ent ∧
          pk_reward p = pk_reward (default Packet_new (od_get k pk))).
Proof.
  induction l as [|[k0 e0] l IH]; intros pk s.
  - exists pk. split_and!; try done; try by auto.
    intros _ k ent Hin. by apply elem_of_nil in Hin.
  - cbn [foldM]. rewrite (bind_run _ _ _ _ _ (getStims_body_eq pk k0 e0 s)).
    set (pk1 := pk_update k0 _ pk).
    destruct (IH pk1 s) as (pk' & Hrun & Hmono & Hkeys & Hother & Hrew & Hstim).
    exists pk'. split_and!; [done | | | | |].
    + intros k Hk. apply Hmono. by apply pk_update_keys_mono.
    + intros k Hk. apply Hkeys in Hk as [Hk|Hk].
      * unfold pk1 in Hk. rewrite od_keys_pk_update in Hk.
        destruct (decide _); [by left |].
        apply elem_of_app in Hk as [Hk|Hk]; [by left |].
        apply list_elem_of_singleton in Hk as ->. right. left.
      * right. by right.
    + intros k Hk. simpl in Hk. apply not_elem_of_cons in Hk as [Hne Hk].
      rewrite Hother by done. unfold pk1.
      by rewrite od_get_pk_update, decide_False by done.
    + intros Hpk Hfresh. apply Hrew.
      * intros k p Hin. apply elem_pk_update in Hin as [[-> ->]|Hin];
          [| by apply Hpk]. simpl.
        destruct (od_get k0 pk) as [p0|] eqn:Hg; simpl.
        -- apply Hpk. by apply od_get_Some_elem.
        -- symmetry. apply Hfresh; [left | by apply od_get_None].
      * intros k Hk Hnk. apply Hfresh; [by right |].
        intros Hin. apply Hnk. by apply pk_update_keys_mono.
    + intros Hnd k ent Hin. simpl in Hnd. apply NoDup_cons in Hnd as [Hk0 Hnd].
      apply elem_of_cons in Hin as [[= -> ->]|Hin].
      * rewrite Hother by done. unfold pk1.
        rewrite od_get_pk_update, decide_True by done. eauto.
      * destruct (Hstim Hnd k ent Hin) as (p & Hg & Hs & Hr).
        exists p. split_and!; [done | done |]. rewrite Hr. unfold pk1.
        rewrite od_get_pk_update, decide_False; [done |].
        intros ->. apply Hk0. by apply elem_od_keys with ent.
Qed.

End pipeline_facts.

(** ** A tick that returns *)

Section tick_facts.
Context `{Collaborators}.
Implicit Types (pk : list (Z * Packet)) (s : Realm).

(** An admission that returns: the keys generated so far keep their
    entities, and the ledger total moves with the size of the entity map. *)
Lemma step_admit_Ok s s1 :
  NPOP (config s) ≠ 0 → desc_wf s →
  step_admit s = (Ok tt, s1) →
  desc_wf s1 ∧ config s1 = config s ∧
  (∀ k, k ≤ entID s → od_get k (desciples s1) = od_get k (desciples s)) ∧
  ents (spawner s1) - Z.of_nat (length (desciples s1))
    = ents (spawner s) - Z.of_nat (length (desciples s)).
Proof.
  intros Hn Hwf Hrun.
  assert (Hwf1 : desc_wf s1).
  { pose proof (step_admit_desc_wf s Hwf) as Hp. by rewrite Hrun in Hp. }
  split; [done |].
  rewrite step_admit_eq in Hrun by done. cbv zeta in Hrun.
  rewrite Spawner_spawn_eq in Hrun. cbv zeta in Hrun. simpl in Hrun.
  repeat case_bool_decide; try done.
  destruct (decide _); [by injection Hrun as <- |].
  destruct (decide _); [by injection Hrun as <- |].
  destruct (ent_in _ _ _); [done |]. injection Hrun as <-. simpl.
  rewrite Player_entID.
  assert (Hfresh : entID s + 1 ∉ od_keys (desciples s)).
  { intros Hin. apply list_elem_of_fmap in Hin as [[k ent] [Hk Hin]].
    destruct Hwf as [_ Hkeys]. destruct (Hkeys k ent Hin) as [_ Hle].
    simpl in Hk. lia. }
  split_and!; [done | |].
  - intros k Hk. rewrite od_get_set. by rewrite decide_False by lia.
  - rewrite od_set_fresh by done. rewrite length_app. simpl. lia.
Qed.

Lemma step_packets_inv decisions s packets dones s' :
  step_packets decisions s = (Ok (packets, dones), s') →
  ∃ s1 sa sb dead pk1 s2,
    step_admit s = (Ok tt, s1) ∧
    stepAll decisions s1 = (Ok tt, sa) ∧
    act (prioritize decisions) sa = (Ok tt, sb) ∧
    foldM scan_body (od_keys decisions) ([], [], []) sb
      = (Ok (dead, dones, pk1), sb) ∧
    cullDead dead sb = (Ok tt, s2) ∧
    getStims pk1 (stepEnv s2).2 = (Ok packets, s').
Proof.
  unfold step_packets. intros Hrun.
  apply bind_Ok in Hrun as ([] & s1 & Hadm & Hrun).
  apply bind_Ok in Hrun as ([pk1 dones1] & s2 & Hents & Hrun).
  apply bind_Ok in Hrun as ([] & s3 & Henv & Hrun).
  apply bind_Ok in Hrun as (pk2 & s4 & Hstims & Hret).
  injection Hret as <- <- <-.
  unfold stepEnts in Hents.
  apply bind_Ok in Hents as ([] & sa & Hall & Hents).
  apply bind_Ok in Hents as ([] & sb & Hact & Hents).
  apply bind_Ok in Hents as ([[dead dones2] pk] & sc & Hscan & Hents).
  apply bind_Ok in Hents as ([] & sd & Hcull & Hret).
  injection Hret as -> -> ->.
  destruct (scan_spec (od_keys decisions) (od_keys decisions)
              ([], [], []) (dead, dones1, pk1) sb sc) as (-> & _);
    [done | | done |].
  { split_and!; try apply NoDup_nil_2;
      intros ? ?; try intros ?;
      match goal with Hin : _ ∈ [] |- _ => by apply elem_of_nil in Hin end. }
  exists s1, sa, sb, dead, pk1, s2. split_and!; try done.
  by rewrite Henv.
Qed.

(** What a [step] call that returns has done. *)
Lemma step_packets_Ok decisions s packets dones s' :
  NPOP (config s) ≠ 0 → desc_wf s →
  step_packets decisions s = (Ok (packets, dones), s') →
  (∀ k, k ≤ entID s → k ∉ od_keys decisions →
        od_get k (desciples s') = od_get k (desciples s)) ∧
  ents (spawner s') - Z.of_nat (length (desciples s'))
    = ents (spawner s) - Z.of_nat (length (desciples s)) ∧
  (∀ x, x ∈ dones →
        ∃ k ent w, k ∈ od_keys decisions ∧ entID_of ent = k ∧
                   serial w ent = x) ∧
  (∀ k p, (k, p) ∈ packets →
        pk_reward p =
          if decide (k ∈ od_keys decisions) then Some 0 else None) ∧
  (∀ k ent, (k, ent) ∈ desciples s' →
        ∃ p st, od_get k packets = Some p ∧ pk_stim p = StimPair st ent) ∧
  (∀ k, k ∈ od_keys packets → k ∈ od_keys (desciples s')).
Proof.
  intros Hn Hwf Hrun.
  apply step_packets_inv in Hrun
    as (s1 & sa & sb & dead & pk1 & s2
        & Hadm & Hall & Hact & Hscan & Hcull & Hstims).
  destruct (step_admit_Ok s s1 Hn Hwf Hadm) as (Hwf1 & Hc1 & Hget1 & Hlen1).
  (* the world's steps *)
  pose proof (stepAll_world_only decisions s1) as Hpa. rewrite Hall in Hpa.
  pose proof (act_world_only (prioritize decisions) sa) as Hpb.
  rewrite Hact in Hpb. simpl in Hpa, Hpb. rewrite Hpa in Hpb.
  unfold realm_part in Hpb. injection Hpb as Hsp Hd Hc Hid Ht.
  assert (Hwfb : desc_wf sb).
  { destruct Hwf1 as [Hnd Hk]. unfold desc_wf. by rewrite Hd, Hid. }
  (* the scan *)
  destruct (scan_spec (od_keys decisions) (od_keys decisions)
              ([], [], []) (dead, dones, pk1) sb sb)
    as (_ & (Hdead & Hdones & Hpk & Hndd & Hndpk) & Hcov & _);
    [done | | done |].
  { split_and!; try apply NoDup_nil_2;
      intros ? ?; try intros ?;
      match goal with Hin : _ ∈ [] |- _ => by apply elem_of_nil in Hin end. }
  assert (Hkey : ∀ k ent, od_get k (desciples sb) = Some ent → entID_of ent = k).
  { intros k ent Hg. destruct Hwfb as [_ Hk].
    by destruct (Hk k ent (od_get_Some_elem _ _ _ Hg)). }
  assert (Hdead_dec : ∀ x, x ∈ dead → x ∈ od_keys decisions).
  { intros x Hx. destruct (Hdead x Hx) as (k & ent & Hk & Hg & _ & Hx').
    by rewrite <- Hx', (Hkey k ent Hg). }
  (* the cull *)
  unfold cullDead in Hcull.
  destruct (cull_loop_spec _ sb s2 Hcull)
    as (Hgetc & Hndc & Hsubc & Hlenc & Hcc & Hidc).
  destruct (Hndc (proj1 Hwfb)) as [Hnd2 Hnone].
  assert (Hiter : ∀ x, x ∈ set_iter dead ↔ x ∈ dead).
  { intros x. by rewrite (set_iter_perm dead). }
  (* the observations *)
  rewrite stepEnv_eq in Hstims. cbv zeta in Hstims. simpl in Hstims.
  rewrite getStims_eq in Hstims. simpl in Hstims.
  set (s3 := set_env _ _) in Hstims.
  destruct (getStims_loop_spec
              (λ k, if decide (k ∈ od_keys decisions) then Some 0 else None)
              (desciples s2) pk1 s3)
    as (pk' & Hrun' & Hmono & Hkeys & Hother & Hrew & Hstim).
  rewrite Hrun' in Hstims. injection Hstims as <- <-. simpl.
  split_and!.
  - intros k Hk Hnk. rewrite Hgetc.
    + rewrite Hd. by apply Hget1.
    + rewrite Hiter. intros Hin. by apply Hnk, Hdead_dec.
  - rewrite Hlenc, Hsp, Hd. done.
  - intros x Hx. destruct (Hdones x Hx) as (k & ent & Hk & Hg & _ & Hx').
    exists k, ent, (world sb). split_and!; [done | by apply Hkey | done].
  - apply Hrew.
    + intros k p Hin. destruct (Hpk k p Hin) as (Hk & Hr & _).
      by rewrite decide_True.
    + intros k Hk Hnk. destruct (decide (k ∈ od_keys decisions)) as [Hkd|]; [| done].
      exfalso. pose proof (Hsubc k Hk) as Hkb.
      apply od_get_is_Some in Hkb as [ent Hg].
      specialize (Hcov k ent Hkd Hg). simpl in Hcov.
      destruct (alive (world sb) ent); [done |].
      rewrite (Hkey k ent Hg) in Hcov.
      apply od_get_is_Some in Hk as [ent' Hg'].
      rewrite Hnone in Hg' by (by apply Hiter). done.
  - intros k ent Hin.
    destruct (Hstim Hnd2 k ent Hin) as (p & Hg & Hs & _). eauto.
  - intros k Hk. apply Hkeys in Hk as [Hk|Hk]; [| done].
    apply list_elem_of_fmap in Hk as [[k' p] [-> Hin]]. simpl.
    destruct (Hpk k' p Hin) as (Hkd & _ & ent & Hg & Halive).
    destruct (decide (k' ∈ od_keys (desciples s2))) as [|Hnin]; [done |].
    exfalso. apply od_get_None in Hnin.
    rewrite Hgetc in Hnin by (rewrite Hiter; intros Hin';
      destruct (Hdead k' Hin') as (k2 & ent2 & _ & Hg2 & Hal2 & Hid2);
      rewrite (Hkey k2 ent2 Hg2) in Hid2; subst k2; congruence).
    congruence.
Qed.

End tick_facts.

(** * The claims *)

Section claims.
Context `{Collaborators}.

(** C1, as amended: [Spawner.spawn] has no return value on any path.  For
    every call whose two admission assertions hold, if the total equals the
    cap or the population's count equals the slot size, the call returns
    [None] and leaves the total, every population's count (no entry is
    zero), the entity map and the world unchanged; otherwise it adds one to
    the population's count and to the total, leaves the other counts as
    they were, and returns [None] unless the assertion on the new entity
    fails. *)
Theorem Spawner_spawn_admission s iden pop name :
  liveCount (spawner s) pop ≤ popSz (spawner s) →
  ents (spawner s) ≤ nEnt (spawner s) →
  let r := Spawner_spawn (Some iden) pop name s in
  if decide (ents (spawner s) = nEnt (spawner s) ∨
             liveCount (spawner s) pop = popSz (spawner s))
  then
    r.1 = Ok PyNone ∧
    ents (spawner r.2) = ents (spawner s) ∧
    (∀ p, liveCount (spawner r.2) p = liveCount (spawner s) p) ∧
    desciples r.2 = desciples s ∧ world r.2 = world s
  else
    (r.1 = Ok PyNone ∨ r.1 = Raise AssertEntPresent) ∧
    ents (spawner r.2) = ents (spawner s) + 1 ∧
    liveCount (spawner r.2) pop = liveCount (spawner s) pop + 1 ∧
    (∀ p, p ≠ pop → liveCount (spawner r.2) p = liveCount (spawner s) p).
Proof.
  intros Hc Hn r. subst r. rewrite Spawner_spawn_eq. cbv zeta.
  rewrite !bool_decide_true by done.
  assert (Hsame : ∀ p,
    liveCount (set_pops (insert pop (liveCount (spawner s) pop)) (spawner s)) p
    = liveCount (spawner s) p).
  { intros p. rewrite liveCount_insert. by destruct (decide (pop = p)) as [->|]. }
  destruct (decide (ents (spawner s) = nEnt (spawner s))) as [Hfull|Hroom].
  { rewrite decide_True by (by left). simpl. by split_and!. }
  destruct (decide (liveCount (spawner s) pop = popSz (spawner s)))
    as [Hpfull|Hproom].
  { rewrite decide_True by (by right). simpl. by split_and!. }
  rewrite decide_False by (intros [?|?]; done).
  assert (Hother : ∀ p, p ≠ pop →
    liveCount
      (set_ents (λ n, n + 1)
         (set_pops (insert pop (liveCount (spawner s) pop + 1))
            (set_pops (insert pop (liveCount (spawner s) pop)) (spawner s)))) p
    = liveCount (spawner s) p).
  { intros p Hne. unfold liveCount; simpl.
    by rewrite !lookup_insert_ne by done. }
  assert (Hthis :
    liveCount
      (set_ents (λ n, n + 1)
         (set_pops (insert pop (liveCount (spawner s) pop + 1))
            (set_pops (insert pop (liveCount (spawner s) pop)) (spawner s))))
      pop
    = liveCount (spawner s) pop + 1).
  { unfold liveCount at 1; simpl. by rewrite lookup_insert_eq. }
  destruct (ent_in _ _ _); simpl; split_and!; auto.
Qed.

(** C2: in every state a realm built from a configuration with a
    non-negative entity cap and a positive population count goes through,
    every population's count lies between zero and
    [entityCap // populationCount], and the sum of the counts (which is the
    ledger's total) lies between zero and [entityCap]. *)
Theorem ledger_bounds cfg idx s p :
  0 ≤ NENT cfg → 0 < NPOP cfg → reachable cfg idx s →
  0 ≤ liveCount (spawner s) p ≤ NENT cfg `div` NPOP cfg ∧
  sum_counts (pops (spawner s)) = ents (spawner s) ∧
  0 ≤ sum_counts (pops (spawner s)) ≤ NENT cfg.
Proof.
  intros Hn Hp Hr.
  pose proof (reachable_ledger cfg idx s Hn Hp Hr) as Hinv.
  pose proof (reachable_built_from cfg idx s Hr) as (_ & _ & HnE & _ & Hsz).
  pose proof (ledger_inv_liveCount _ p Hinv) as Hlc.
  destruct Hinv as (_ & He & _ & Hsum).
  rewrite <- Hsz, <- HnE. split_and!; lia.
Qed.

(** C5, as amended: the population returned by [Realm.spawn] is the hash
    of the string form of the identifier counter before the increment,
    modulo the population count: [pop = hash(str(iden - 1)) % NPOP] for the
    identifier [iden] the call returns. *)
Theorem spawn_population s :
  NPOP (config s) ≠ 0 →
  ∃ iden pop name,
    (spawn s).1 = Ok (Some iden, pop, name) ∧
    iden = entID s + 1 ∧
    pop = hash (pretty (iden - 1)) `mod` NPOP (config s).
Proof.
  intros Hn. rewrite spawn_eq by done. simpl.
  eexists _, _, _. split_and!; [done | done |].
  by replace (entID s + 1 - 1) with (entID s) by lia.
Qed.

(** C7: [reset] at tick zero is [step] with no decisions, the same result
    and the same state; after any [step] call on a realm it raises the
    restart assertion and changes nothing. *)
Theorem reset_spec :
  (∀ s, tick s = 0 → reset s = step [] s) ∧
  (∀ cfg idx s decisions,
     reachable cfg idx s →
     reset (step decisions s).2 = (Raise AssertRestart, (step decisions s).2)).
Proof.
  split.
  - intros s Ht. unfold reset, bind, gets; simpl.
    by rewrite bool_decide_true by done.
  - intros cfg idx s d Hr. unfold reset, bind, gets; simpl.
    rewrite bool_decide_false; [done |].
    rewrite step_tick. pose proof (reachable_tick cfg idx s Hr). lia.
Qed.

Lemma idens_of_run_eq cfg ds : ∀ s,
  built_from cfg s →
  idens_of_run ds s = seqZ (entID s + 1) (Z.of_nat (length ds)).
Proof.
  induction ds as [|d ds IH]; intros s Hb; [done |].
  pose proof Hb as (Hc & Hn & _). subst cfg.
  cbn [idens_of_run length].
  rewrite spawn_eq by done. simpl fst.
  rewrite IH by (by apply step_built_from).
  rewrite step_entID by done.
  rewrite Nat2Z.inj_succ, (seqZ_cons (entID s + 1)) by lia. simpl.
  f_equal. f_equal; lia.
Qed.

(** C8: the identifiers generated by any sequence of [step] calls on a
    realm are strictly increasing, hence pairwise distinct, and each is
    greater than the identifier counter the sequence started from, which
    bounds every key of the entity map: no identifier comes back. *)
Theorem identifiers_increasing cfg idx s ds :
  reachable cfg idx s →
  length (idens_of_run ds s) = length ds ∧
  (∀ i j a b,
     idens_of_run ds s !! i = Some a → idens_of_run ds s !! j = Some b →
     (i < j)%nat → a < b) ∧
  NoDup (idens_of_run ds s) ∧
  (∀ a, a ∈ idens_of_run ds s →
        entID s < a ∧ ∀ k, k ∈ od_keys (desciples s) → k < a).
Proof.
  intros Hr. pose proof (reachable_built_from cfg idx s Hr) as Hb.
  rewrite (idens_of_run_eq cfg ds s Hb). split_and!.
  - rewrite length_seqZ. lia.
  - intros i j a b Hi Hj Hij.
    apply lookup_seqZ in Hi as [-> _]. apply lookup_seqZ in Hj as [-> _]. lia.
  - apply NoDup_seqZ.
  - intros a Ha. apply elem_of_seqZ in Ha.
    split; [lia |]. intros k Hk.
    apply list_elem_of_fmap in Hk as [[k' ent] [-> Hin]].
    destruct (reachable_desc_wf cfg idx s Hr) as [_ Hkeys].
    destruct (Hkeys k' ent Hin). simpl. lia.
Qed.

(** C10: on a realm that was built, [Realm.spawn] always returns an
    integer identifier, never [None]: [2] on the first call, and on every
    call the counter plus one, which the next call then exceeds by exactly
    one; so [step] never raises the assertion that checks it. *)
Theorem spawn_total cfg idx s0 :
  Realm_init cfg idx = Ok s0 →
  (∃ pop, (spawn s0).1 = Ok (Some 2, pop, "Neural_"%string)) ∧
  (∀ s, reachable cfg idx s →
     ∃ pop pop',
       spawn s = (Ok (Some (entID s + 1), pop, "Neural_"%string),
                  set_entID (λ n, n + 1) s) ∧
       (spawn (spawn s).2).1 = Ok (Some (entID s + 2), pop', "Neural_"%string)) ∧
  (∀ s decisions, (step decisions s).1 ≠ Raise AssertIdenNone_step).
Proof.
  intros Hinit. split_and!.
  - pose proof (Realm_init_built_from cfg idx s0 Hinit) as (Hc & Hn & _).
    subst cfg. rewrite spawn_eq by done. simpl.
    unfold Realm_init in Hinit.
    destruct (Spawner_init _) as [sp|]; [| done]. injection Hinit as <-.
    eauto.
  - intros s Hr.
    pose proof (reachable_built_from cfg idx s Hr) as (Hc & Hn & _).
    subst cfg. rewrite !spawn_eq by done. simpl.
    replace (entID s + 2) with (entID s + 1 + 1) by lia. eauto.
  - intros s d. apply step_never_IdenNone.
Qed.

(** C6, as amended: in the return value of a [step] call that returns,
    the reward paired with the stimulus of an entity is zero when the
    entity had a decision this tick, and [None] when it had none: the
    entities alive in the realm that the decisions do not mention, the
    one just admitted among them, get a fresh packet whose reward is
    never set. *)
Theorem step_rewards cfg idx s decisions stims rewards dones r4 s' :
  reachable cfg idx s →
  step decisions s = (Ok (stims, rewards, dones, r4), s') →
  ∃ packets,
    step_packets decisions s = (Ok (packets, dones), s') ∧
    stims = map pk_stim (od_values packets) ∧
    rewards =
      map (λ k, if decide (k ∈ od_keys decisions)
                then Some (reward k) else None)
          (od_keys packets) ∧
    (∀ k, k ∈ od_keys packets → k ∈ od_keys (desciples s')).
Proof.
  intros Hr Hrun. unfold step in Hrun.
  apply bind_Ok in Hrun as ([packets dones'] & s1 & Hpk & Hret).
  injection Hret as <- <- <- <- <-.
  pose proof (reachable_built_from cfg idx s Hr) as (Hc & Hn & _). subst cfg.
  destruct (step_packets_Ok decisions s packets dones' s1 Hn
              (reachable_desc_wf _ idx s Hr) Hpk)
    as (_ & _ & _ & Hrew & _ & Hkeys).
  exists packets. split_and!; [done | done | | done].
  unfold od_values, od_keys. rewrite !map_map.
  apply map_ext_in. intros [k p] Hin. simpl.
  apply Hrew. by apply list_elem_of_In.
Qed.

(** C9: in a [step] call that returns, an entity of the realm whose
    identifier is not among the decisions, whatever its liveness flag and
    so also when the flag is false, is not culled: it keeps its place in
    the entity map, the ledger total still moves with the size of the
    entity map, and its stimulus is among those returned, paired with its
    own packet (of reward [None]); its serial number is not in [dones],
    given that a serial number belongs to one entity. *)
Theorem undecided_entity_is_kept
    cfg idx s decisions stims rewards dones r4 s' k ent :
  reachable cfg idx s →
  (∀ w1 w2 e1 e2, serial w1 e1 = serial w2 e2 → entID_of e1 = entID_of e2) →
  step decisions s = (Ok (stims, rewards, dones, r4), s') →
  od_get k (desciples s) = Some ent →
  k ∉ od_keys decisions →
  od_get k (desciples s') = Some ent ∧
  ents (spawner s') - Z.of_nat (length (desciples s'))
    = ents (spawner s) - Z.of_nat (length (desciples s)) ∧
  (∀ w, serial w ent ∉ dones) ∧
  ∃ packets p st,
    step_packets decisions s = (Ok (packets, dones), s') ∧
    od_get k packets = Some p ∧
    pk_stim p = StimPair st ent ∧ pk_reward p = None ∧
    StimPair st ent ∈ stims.
Proof.
  intros Hr Hser Hrun Hget Hnk. unfold step in Hrun.
  apply bind_Ok in Hrun as ([packets dones'] & s1 & Hpk & Hret).
  injection Hret as <- <- <- <- <-.
  pose proof (reachable_built_from cfg idx s Hr) as (Hc & Hn & _). subst cfg.
  pose proof (reachable_desc_wf _ idx s Hr) as Hwf.
  destruct (step_packets_Ok decisions s packets dones' s1 Hn Hwf Hpk)
    as (Hkeep & Hlen & Hdones & Hrew & Hstim & _).
  destruct Hwf as [_ Hkeys].
  destruct (Hkeys k ent (od_get_Some_elem _ _ _ Hget)) as [Hid Hle].
  assert (Hget' : od_get k (desciples s1) = Some ent)
    by (rewrite Hkeep; done).
  split_and!; [done | done | |].
  - intros w Hin. destruct (Hdones _ Hin) as (k' & ent' & w' & Hk' & Hid' & Hs).
    apply Hser in Hs. apply Hnk. congruence.
  - destruct (Hstim k ent (od_get_Some_elem _ _ _ Hget')) as (p & st & Hp & Hst).
    exists packets, p, st. split_and!; [done | done | done | |].
    + rewrite (Hrew k p (od_get_Some_elem _ _ _ Hp)).
      by rewrite decide_False.
    + apply list_elem_of_fmap. exists p. split; [done |].
      apply list_elem_of_fmap. exists (k, p). split; [done |].
      by apply od_get_Some_elem.
Qed.

End claims.

(** * Further properties of the ledger and of the tick *)

Section more_ledger.
Context `{Collaborators}.

(** X1: [Spawner.cull] never changes the configured sizes.  It raises its
    first assertion when the population's count is below one, its second
    when the total is below one, and then leaves every count and the total
    as they were; otherwise it returns, takes one off the population's
    count and off the total, leaves the other counts alone, and removes
    the population's entry when its count reaches zero. *)
Theorem Spawner_cull_spec pop sp :
  let r := Spawner_cull pop sp in
  sizes r.2 = sizes sp ∧
  if decide (liveCount sp pop < 1) then
    r.1 = Raise AssertCullPop ∧ ents r.2 = ents sp ∧
    ∀ p, liveCount r.2 p = liveCount sp p
  else if decide (ents sp < 1) then
    r.1 = Raise AssertCullEnts ∧ ents r.2 = ents sp ∧
    ∀ p, liveCount r.2 p = liveCount sp p
  else
    r.1 = Ok tt ∧ ents r.2 = ents sp - 1 ∧
    liveCount r.2 pop = liveCount sp pop - 1 ∧
    (∀ p, p ≠ pop → liveCount r.2 p = liveCount sp p) ∧
    (liveCount sp pop = 1 → pops r.2 !! pop = None).
Proof.
  intros r. split; [apply Spawner_cull_sizes |].
  subst r. rewrite Spawner_cull_eq. cbv zeta.
  assert (Hsame : ∀ p,
    liveCount (set_pops (insert pop (liveCount sp pop)) sp) p = liveCount sp p).
  { intros p. rewrite liveCount_insert. by destruct (decide (pop = p)) as [->|]. }
  destruct (decide (liveCount sp pop < 1)) as [Hc|Hc].
  { rewrite bool_decide_false by lia. by split_and!. }
  rewrite bool_decide_true by lia.
  destruct (decide (ents sp < 1)) as [Hn|Hn].
  { rewrite bool_decide_false by lia. by split_and!. }
  rewrite bool_decide_true by lia. simpl.
  destruct (decide (liveCount sp pop - 1 = 0)) as [H0|H0]; simpl.
  - split_and!; [done | done | | |].
    + rewrite liveCount_delete, decide_True by done. lia.
    + intros p Hne. rewrite liveCount_delete, decide_False by done.
      unfold liveCount; simpl. by rewrite !lookup_insert_ne by done.
    + intros _. apply lookup_delete_eq.
  - split_and!; [done | done | | |].
    + unfold liveCount at 1; simpl. by rewrite lookup_insert_eq.
    + intros p Hne. unfold liveCount; simpl.
      by rewrite !lookup_insert_ne by done.
    + lia.
Qed.

(** X2: admission and release undo each other.  On a ledger with room and
    counts that are not negative, after a [Spawner.spawn] that returns,
    [Spawner.cull] of the same population returns and puts the total and
    every population's count back to what they were. *)
Theorem Spawner_spawn_cull_roundtrip s iden pop name s1 :
  0 ≤ liveCount (spawner s) pop → 0 ≤ ents (spawner s) →
  ents (spawner s) ≠ nEnt (spawner s) →
  liveCount (spawner s) pop ≠ popSz (spawner s) →
  Spawner_spawn (Some iden) pop name s = (Ok PyNone, s1) →
  (Spawner_cull pop (spawner s1)).1 = Ok tt ∧
  ents (Spawner_cull pop (spawner s1)).2 = ents (spawner s) ∧
  ∀ p, liveCount (Spawner_cull pop (spawner s1)).2 p = liveCount (spawner s) p.
Proof.
  intros Hc Hn Hroom Hproom Hrun.
  rewrite Spawner_spawn_eq in Hrun. cbv zeta in Hrun.
  repeat case_bool_decide; try done.
  rewrite !decide_False in Hrun by done.
  destruct (ent_in _ _ _); [done |]. injection Hrun as <-. simpl.
  set (sp2 := set_ents _ _).
  assert (Hlc : liveCount sp2 pop = liveCount (spawner s) pop + 1).
  { unfold sp2, liveCount at 1; simpl. by rewrite lookup_insert_eq. }
  assert (He : ents sp2 = ents (spawner s) + 1) by done.
  assert (Hother : ∀ p, p ≠ pop → liveCount sp2 p = liveCount (spawner s) p).
  { intros p Hne. unfold sp2, liveCount; simpl.
    by rewrite !lookup_insert_ne by done. }
  rewrite Spawner_cull_eq. cbv zeta.
  rewrite !bool_decide_true by lia. simpl fst. simpl snd.
  assert (Hgoal : ∀ sp3,
    ents sp3 = ents sp2 - 1 →
    (∀ p, liveCount sp3 p =
          if decide (pop = p) then liveCount sp2 pop - 1 else liveCount sp2 p) →
    ents sp3 = ents (spawner s) ∧
    ∀ p, liveCount sp3 p = liveCount (spawner s) p).
  { intros sp3 He3 Hl3. split; [lia |]. intros p. rewrite Hl3.
    destruct (decide (pop = p)) as [<-|Hne]; [lia | by apply Hother]. }
  split; [done |]. destruct (decide _) as [Hz|Hz]; apply Hgoal; try done.
  - intros p. rewrite liveCount_delete.
    destruct (decide (pop = p)); [lia |].
    unfold liveCount; simpl. by rewrite !lookup_insert_ne by done.
  - intros p. unfold liveCount at 1; simpl. rewrite lookup_insert.
    destruct (decide (pop = p)); [done |].
    unfold liveCount; simpl. by rewrite lookup_insert_ne by done.
Qed.

End more_ledger.

Section more_admission.
Context `{Collaborators}.

(** X3: with a positive population count, the population index that
    [Realm.spawn] returns is a valid one, at least zero and below the
    population count. *)
Theorem spawn_population_range s :
  0 < NPOP (config s) →
  ∃ iden pop name,
    (spawn s).1 = Ok (Some iden, pop, name) ∧ 0 ≤ pop < NPOP (config s).
Proof.
  intros Hn. rewrite spawn_eq by lia. simpl.
  eexists _, _, _. split; [done |]. by apply Z.mod_pos_bound.
Qed.

Lemma steps_built_from cfg ds : ∀ s, built_from cfg s → built_from cfg (steps ds s).
Proof.
  induction ds as [|d ds IH]; intros s Hb; [done |].
  simpl. apply IH. by apply step_built_from.
Qed.

Lemma steps_app ds1 ds2 s : steps (ds1 ++ ds2) s = steps ds2 (steps ds1 s).
Proof. unfold steps. apply fold_left_app. Qed.

(** X4: after [n] calls of [step] on a realm just built, whether they
    returned or raised, the tick counter is [n], the identifier counter is
    [1 + n], and the configuration is the one the realm was built from. *)
Theorem steps_counters cfg idx s0 ds :
  Realm_init cfg idx = Ok s0 →
  tick (steps ds s0) = Z.of_nat (length ds) ∧
  entID (steps ds s0) = 1 + Z.of_nat (length ds) ∧
  config (steps ds s0) = cfg.
Proof.
  intros Hinit.
  pose proof (Realm_init_built_from cfg idx s0 Hinit) as Hb.
  assert (Ht0 : tick s0 = 0 ∧ entID s0 = 1).
  { unfold Realm_init in Hinit. destruct (Spawner_init cfg); [| done].
    by injection Hinit as <-. }
  destruct Ht0 as [Ht0 Hid0].
  induction ds as [|d ds IH] using rev_ind; [by destruct Hb |].
  rewrite steps_app, length_app. simpl.
  pose proof (steps_built_from cfg ds s0 Hb) as Hbs.
  destruct IH as (IHt & IHid & IHc).
  rewrite step_tick, step_entID by (rewrite IHc; apply Hb).
  split_and!; [lia | lia |].
  by destruct (step_built_from cfg d _ Hbs).
Qed.

Lemma step_admit_refused s :
  NPOP (config s) ≠ 0 →
  let pop := hash (pretty (entID s)) `mod` NPOP (config s) in
  liveCount (spawner s) pop ≤ popSz (spawner s) →
  ents (spawner s) ≤ nEnt (spawner s) →
  ents (spawner s) = nEnt (spawner s) ∨
    liveCount (spawner s) pop = popSz (spawner s) →
  (step_admit s).1 = Ok tt ∧
  desciples (step_admit s).2 = desciples s ∧
  world (step_admit s).2 = world s ∧
  ents (spawner (step_admit s).2) = ents (spawner s) ∧
  (∀ p, liveCount (spawner (step_admit s).2) p = liveCount (spawner s) p) ∧
  entID (step_admit s).2 = entID s + 1 ∧
  tick (step_admit s).2 = tick s + 1.
Proof.
  intros Hn pop Hc He Hfull.
  rewrite step_admit_eq by done. cbv zeta. fold pop.
  rewrite Spawner_spawn_eq. cbv zeta. simpl.
  rewrite !bool_decide_true by done.
  assert (Hsame : ∀ p,
    liveCount (set_pops (insert pop (liveCount (spawner s) pop)) (spawner s)) p
    = liveCount (spawner s) p).
  { intros p. rewrite liveCount_insert. by destruct (decide (pop = p)) as [->|]. }
  destruct (decide (ents (spawner s) = nEnt (spawner s))) as [|Hroom];
    [by split_and! |].
  destruct Hfull as [|Hpfull]; [done |].
  rewrite decide_True by done. by split_and!.
Qed.

(** X5: a refused admission is not an error and still uses up an
    identifier.  When the ledger is full (in total, or for the population
    drawn), the admission of [step] returns, with the entity map, the
    world and the counts as they were and the tick and the identifier
    counter moved by one; after the whole [step] call, returning or
    raising, the identifier counter has moved by one and no key of the
    entity map is the identifier generated in this tick. *)
Theorem refused_identifier_is_skipped s decisions :
  NPOP (config s) ≠ 0 → desc_wf s →
  let pop := hash (pretty (entID s)) `mod` NPOP (config s) in
  liveCount (spawner s) pop ≤ popSz (spawner s) →
  ents (spawner s) ≤ nEnt (spawner s) →
  ents (spawner s) = nEnt (spawner s) ∨
    liveCount (spawner s) pop = popSz (spawner s) →
  (step_admit s).1 = Ok tt ∧
  desciples (step_admit s).2 = desciples s ∧
  world (step_admit s).2 = world s ∧
  ents (spawner (step_admit s).2) = ents (spawner s) ∧
  (∀ p, liveCount (spawner (step_admit s).2) p = liveCount (spawner s) p) ∧
  entID (step decisions s).2 = entID s + 1 ∧
  ∀ k, k ∈ od_keys (desciples (step decisions s).2) → k ≤ entID s.
Proof.
  intros Hn Hwf pop Hc He Hfull.
  destruct (step_admit_refused s Hn Hc He Hfull)
    as (Hr & Hd0 & Hw0 & He0 & Hl0 & _).
  split_and!; [done | done | done | done | done | by apply step_entID |].
  apply (step_post
           (λ s', ∀ k, k ∈ od_keys (desciples s') → k ≤ entID s)); try done.
  - intros k s' Hs' x Hx. apply Hs'. by apply od_del_keys_sub with k.
  - intros p. by apply on_spawner_frame.
  - destruct (step_admit_refused s Hn Hc He Hfull) as (_ & Hd & _).
    rewrite Hd. intros k Hk.
    apply list_elem_of_fmap in Hk as [[k' ent] [-> Hin]].
    destruct Hwf as [_ Hkeys]. by destruct (Hkeys k' ent Hin).
Qed.

End more_admission.

Section more_errors.
Context `{Collaborators}.

Lemma bind_Raise {S A B} (m : M S A) (f : A → M S B) s e :
  (bind m f s).1 = Raise e →
  (m s).1 = Raise e ∨ ∃ a s1, m s = (Ok a, s1) ∧ (f a s1).1 = Raise e.
Proof.
  unfold bind. destruct (m s) as [[a|e'] s1]; simpl.
  - intros Hf. right. eauto.
  - intros [= ->]. by left.
Qed.

Lemma never_Spawner_cull e pop :
  e ≠ AssertCullPop → e ≠ AssertCullEnts → never e (Spawner_cull pop).
Proof.
  intros H1 H2 sp. rewrite Spawner_cull_eq. cbv zeta.
  repeat case_bool_decide; simpl; congruence.
Qed.

Lemma stepEnts_never e decisions :
  ¬ tick_error e → never e (stepEnts decisions).
Proof.
  intros He.
  assert (Hk : ∀ k, e ≠ KeyError k) by (intros k ->; by apply He).
  assert (H1 : e ≠ AssertCullPop) by (intros ->; by apply He).
  assert (H2 : e ≠ AssertCullEnts) by (intros ->; by apply He).
  unfold stepEnts, stepAll, act, cullDead, cullDead_body, scan_body.
  repeat lazymatch goal with
  | |- never _ (lookup_ent _) => by apply never_lookup_ent
  | |- never _ (on_spawner _) => by apply never_on_spawner, never_Spawner_cull
  | |- never _ (raise (KeyError ?k)) =>
      apply never_raise; intros Heq; by apply (Hk k)
  | |- never _ (ret _) => apply never_ret
  | |- never _ (gets _) => apply never_gets
  | |- never _ (modify _) => apply never_modify
  | |- never _ (bind _ _) => apply never_bind; [| intros ?]
  | |- never _ (for_ _ _) => apply never_for; intros ?; cbv beta
  | |- never _ (foldM _ _ _) => apply never_foldM; intros ? ?; cbv beta
  | |- never _ (match ?x with _ => _ end) => destruct x
  end.
Qed.

Lemma step_admit_errors s e :
  built_from (config s) s → ledger_inv (spawner s) →
  (step_admit s).1 = Raise e → e = AssertEntPresent.
Proof.
  intros (_ & Hn & _) Hinv.
  pose proof (ledger_inv_liveCount _
    (hash (pretty (entID s)) `mod` NPOP (config s)) Hinv) as Hlc.
  destruct Hinv as (_ & He & _).
  rewrite step_admit_eq by done. cbv zeta.
  rewrite Spawner_spawn_eq. cbv zeta. simpl.
  rewrite !bool_decide_true by lia.
  repeat (destruct (decide _); [done |]).
  destruct (ent_in _ _ _); simpl; [| done]. by intros [= <-].
Qed.

(** X6: on a realm built from a configuration with a non-negative entity
    cap and a positive population count, a [step] call that raises raises
    one of four exceptions: a [KeyError] for an entity that is not in the
    entity map, one of the two assertions of [Spawner.cull], or the
    assertion on the entity just built.  The assertions at the head of
    [Spawner.spawn] and the division by zero in [Realm.spawn] never
    fire. *)
Theorem step_errors cfg idx s decisions e :
  0 ≤ NENT cfg → 0 < NPOP cfg → reachable cfg idx s →
  (step decisions s).1 = Raise e → tick_error e.
Proof.
  intros Hn Hp Hr Hrun.
  pose proof (reachable_built_from cfg idx s Hr) as Hb.
  pose proof (reachable_ledger cfg idx s Hn Hp Hr) as Hinv.
  assert (Hdec : tick_error e ∨ ¬ tick_error e)
    by (destruct e; simpl; tauto).
  destruct Hdec as [|Hne]; [done | exfalso].
  unfold step in Hrun. apply bind_Raise in Hrun as [Hrun|(a & s1 & _ & Hrun)];
    [| by destruct a].
  unfold step_packets in Hrun.
  apply bind_Raise in Hrun as [Hrun|([] & s1 & _ & Hrun)].
  { apply Hne. rewrite (step_admit_errors s e); [done | | done | done].
    destruct Hb as (<- & Hb). by split. }
  apply bind_Raise in Hrun as [Hrun|([pk dones] & s2 & _ & Hrun)].
  { by apply (stepEnts_never e decisions Hne s1). }
  apply bind_Raise in Hrun as [Hrun|([] & s3 & _ & Hrun)]; [done |].
  apply bind_Raise in Hrun as [Hrun|(pk' & s4 & _ & Hrun)]; [| done].
  destruct (getStims_loop_spec (λ _, None) (desciples s3) pk s3)
    as (pk' & Hg & _).
  rewrite getStims_eq, Hg in Hrun. done.
Qed.

End more_errors.

Section more_pipeline.
Context `{Collaborators}.
Implicit Types (pk : list (Z * Packet)) (s : Realm).




End more_pipeline.

Section more_prioritize.
Context `{Collaborators}.

Lemma od_set_not_nil {V} k (v : V) l : od_set k v l ≠ [].
Proof. destruct l as [|[k' v'] l]; simpl; [done |]. by destruct (decide _). Qed.

Lemma tiers_wf_put subm actions e item :
  (e, item) ∈ subm → tiers_wf subm actions →
  tiers_wf subm (prioritize_put e actions item).
Proof.
  intros Hin [Hnd Hall]. unfold prioritize_put. split.
  - by apply od_set_NoDup.
  - intros p tups Hp. apply elem_od_set in Hp as [[= -> ->]|Hp]; [| by apply Hall].
    split_and!.
    + apply od_set_not_nil.
    + apply od_set_NoDup.
      destruct (od_get (priority item.1) actions) as [tier|] eqn:Hg; simpl.
      * by destruct (Hall _ _ (od_get_Some_elem _ _ _ Hg)) as (_ & ? & _).
      * apply NoDup_nil_2.
    + intros e' item' He'. apply elem_od_set in He' as [[= -> ->]|He']; [done |].
      destruct (od_get (priority item.1) actions) as [tier|] eqn:Hg; simpl in He'.
      * destruct (Hall _ _ (od_get_Some_elem _ _ _ Hg)) as (_ & _ & Ht).
        by apply Ht.
      * by apply elem_of_nil in He'.
Qed.

(** X8: one slot per entity and priority.  In the result of [prioritize]
    no priority occurs twice and no tier is empty; within a tier no entity
    occurs twice, and every entry is an action that was submitted by that
    entity with the tier's priority.  Conversely every submitted action
    finds, in the tier of its priority, an entry of its entity, which is a
    submitted action of that priority. *)
Theorem prioritize_tiers decisions :
  tiers_wf (submitted decisions) (prioritize decisions) ∧
  ∀ e item, (e, item) ∈ submitted decisions →
    ∃ item', tier_entry (prioritize decisions) (priority item.1) e = Some item' ∧
             priority item'.1 = priority item.1 ∧
             (e, item') ∈ submitted decisions.
Proof.
  split.
  - rewrite prioritize_submitted.
    assert (Hgen : ∀ l, (∀ x, x ∈ l → x ∈ submitted decisions) →
      tiers_wf (submitted decisions)
        (fold_left (λ actions x, prioritize_put x.1 actions x.2) l [])).
    { induction l as [|x l IH] using rev_ind; intros Hl.
      - split; [apply NoDup_nil_2 |]. intros p tups Hp. by apply elem_of_nil in Hp.
      - rewrite fold_left_app. simpl. apply tiers_wf_put.
        + destruct x as [e item]. apply Hl, elem_of_app. right. left.
        + apply IH. intros y Hy. apply Hl, elem_of_app. by left. }
    by apply Hgen.
  - intros e item Hin. rewrite prioritize_keeps_last.
    set (f := filter _ _).
    assert (Hf : (e, item) ∈ f) by (apply list_elem_of_filter; done).
    destruct (last f) as [[e' item']|] eqn:Hlast.
    + simpl. exists item'. split; [done |].
      apply last_Some_elem_of in Hlast.
      apply list_elem_of_filter in Hlast as [[Hp He] Hs]. simpl in *.
      subst e'. done.
    + apply last_None in Hlast. rewrite Hlast in Hf. by apply elem_of_nil in Hf.
Qed.

End more_prioritize.

Section more_phases.
Context `{Collaborators}.
Implicit Types (pk : list (Z * Packet)) (s : Realm).

Lemma cull_loop_count l : ∀ s s',
  for_ l cullDead_body s = (Ok tt, s') →
  ents (spawner s') = ents (spawner s) - Z.of_nat (length l) ∧
  Z.of_nat (length (desciples s'))
    = Z.of_nat (length (desciples s)) - Z.of_nat (length l) ∧
  ∀ k, k ∈ l → k ∈ od_keys (desciples s).
Proof.
  induction l as [|k l IH]; intros s s' Hrun.
  - injection Hrun as <-. split_and!; [simpl; lia | simpl; lia |].
    intros k Hk. by apply elem_of_nil in Hk.
  - cbn [for_] in Hrun. apply bind_Ok in Hrun as ([] & s1 & Hbody & Hrest).
    apply cullDead_body_Ok in Hbody as (Hk & Hd & He & _).
    destruct (IH s1 s' Hrest) as (He' & Hlen & Hin).
    split_and!.
    + rewrite He', He. cbn [length]. lia.
    + rewrite Hlen, Hd, od_del_length by done. cbn [length]. lia.
    + intros k' Hk'. apply elem_of_cons in Hk' as [->|Hk']; [done |].
      apply Hin in Hk'. rewrite Hd in Hk'. by apply od_del_keys_sub with k.
Qed.

(** X9: a [cullDead] call that returns, on an entity map without repeated
    keys.  Every identifier of [dead] was a key of the entity map and is
    none afterwards; every other key keeps its entity; the ledger total
    and the size of the entity map both go down by the number of
    identifiers in [dead]; the configuration and the identifier counter
    stay. *)
Theorem cullDead_spec dead s s' :
  NoDup (od_keys (desciples s)) →
  cullDead dead s = (Ok tt, s') →
  (∀ k, k ∈ dead →
        k ∈ od_keys (desciples s) ∧ od_get k (desciples s') = None) ∧
  (∀ k, k ∉ dead → od_get k (desciples s') = od_get k (desciples s)) ∧
  NoDup (od_keys (desciples s')) ∧
  ents (spawner s') = ents (spawner s) - Z.of_nat (length dead) ∧
  Z.of_nat (length (desciples s'))
    = Z.of_nat (length (desciples s)) - Z.of_nat (length dead) ∧
  config s' = config s ∧ entID s' = entID s.
Proof.
  intros Hnd Hrun. unfold cullDead in Hrun.
  assert (Hiter : ∀ x, x ∈ set_iter dead ↔ x ∈ dead).
  { intros x. by rewrite (set_iter_perm dead). }
  assert (Hlen : length (set_iter dead) = length dead)
    by (by rewrite (set_iter_perm dead)).
  destruct (cull_loop_spec _ s s' Hrun) as (Hget & Hnone & _ & _ & Hc & Hid).
  destruct (Hnone Hnd) as [Hnd' Hgone].
  destruct (cull_loop_count _ s s' Hrun) as (He & Hl & Hin).
  rewrite Hlen in He, Hl.
  split_and!; try done.
  - intros k Hk. apply Hiter in Hk. split; [by apply Hin | by apply Hgone].
  - intros k Hk. apply Hget. by rewrite Hiter.
Qed.

Lemma getStims_loop_NoDup l : ∀ pk pk' s s',
  foldM getStims_body l pk s = (Ok pk', s') →
  NoDup (od_keys pk) → NoDup (od_keys pk').
Proof.
  induction l as [|[k ent] l IH]; intros pk pk' s s' Hrun Hnd.
  - by injection Hrun as <- <-.
  - cbn [foldM] in Hrun.
    rewrite (bind_run _ _ _ _ _ (getStims_body_eq pk k ent s)) in Hrun.
    apply (IH _ _ _ _ Hrun). by apply pk_update_NoDup.
Qed.

(** X10: [getStims] always returns and changes no state.  On an entity map
    without repeated keys, the packet of every entity of the map holds
    the pair of the stimulus computed by the world at the entity's
    position, with the configured range, and the entity itself, and keeps
    the reward it had (that of a fresh packet when it had none); packets
    of other keys are handed back as they came; the keys of the result
    are those of the argument and those of the entity map. *)
Theorem getStims_spec pk s :
  NoDup (od_keys (desciples s)) →
  ∃ pk',
    getStims pk s = (Ok pk', s) ∧
    (∀ k ent, (k, ent) ∈ desciples s →
       ∃ p, od_get k pk' = Some p ∧
            pk_stim p = StimPair (env_stim (world s) (pos (world s) ent)
                                     (STIM (config s))) ent ∧
            pk_reward p = pk_reward (default Packet_new (od_get k pk))) ∧
    (∀ k, k ∉ od_keys (desciples s) → od_get k pk' = od_get k pk) ∧
    (∀ k, k ∈ od_keys pk' ↔ k ∈ od_keys pk ∨ k ∈ od_keys (desciples s)) ∧
    (NoDup (od_keys pk) → NoDup (od_keys pk')).
Proof.
  intros Hnd. rewrite getStims_eq.
  destruct (getStims_loop_spec (λ _, None) (desciples s) pk s)
    as (pk' & Hrun & Hmono & Hkeys & Hother & _ & Hstim).
  exists pk'. split_and!; [done | by apply Hstim | done | |].
  - intros k. split; [apply Hkeys |]. intros [Hk|Hk]; [by apply Hmono |].
    apply list_elem_of_fmap in Hk as [[k' ent] [-> Hin]].
    destruct (Hstim Hnd k' ent Hin) as (p & Hg & _).
    apply od_get_is_Some. eauto.
  - by apply (getStims_loop_NoDup _ _ _ _ _ Hrun).
Qed.

Lemma scan_dones l : ∀ acc acc' s s',
  foldM scan_body l acc s = (Ok acc', s') →
  (∀ x, x ∈ acc.1.2 → x ∈ acc'.1.2) ∧
  ∀ k, k ∈ l →
    ∃ ent, od_get k (desciples s) = Some ent ∧
           (alive (world s) ent = false → serial (world s) ent ∈ acc'.1.2).
Proof.
  induction l as [|k l IH]; intros acc acc' s s' Hrun.
  - injection Hrun as <- <-. split; [done |].
    intros k Hk. by apply elem_of_nil in Hk.
  - cbn [foldM] in Hrun. apply bind_Ok in Hrun as (acc1 & s1 & Hbody & Hrest).
    destruct acc as [[dead dones] pk]. rewrite scan_body_eq in Hbody.
    destruct (od_get k (desciples s)) as [ent|] eqn:Hg; [| done].
    destruct (alive (world s) ent) eqn:Ha; injection Hbody as <- <-;
      destruct (IH _ _ _ _ Hrest) as [Hmono Hcov]; simpl in *.
    + split; [done |]. intros k' Hk'.
      apply elem_of_cons in Hk' as [->|Hk']; [| by apply Hcov].
      exists ent. split; [done |]. congruence.
    + split.
      * intros x Hx. apply Hmono, elem_set_add. by right.
      * intros k' Hk'.
        apply elem_of_cons in Hk' as [->|Hk']; [| by apply Hcov].
        exists ent. split; [done |]. intros _.
        apply Hmono, elem_set_add. by left.
Qed.

(** The pieces of a [step] call that returns, with what the phases that
    only touch the world leave in place. *)
Lemma tick_pieces decisions s packets dones s' :
  NPOP (config s) ≠ 0 → desc_wf s →
  step_packets decisions s = (Ok (packets, dones), s') →
  ∃ s1 sb dead pk1 s2,
    step_admit s = (Ok tt, s1) ∧ desc_wf s1 ∧
    sb = state_at_scan decisions s ∧
    desc_wf sb ∧ desciples sb = desciples s1 ∧ spawner sb = spawner s1 ∧
    foldM scan_body (od_keys decisions) ([], [], []) sb
      = (Ok (dead, dones, pk1), sb) ∧
    scan_inv (od_keys decisions) sb (dead, dones, pk1) ∧
    scan_cover (od_keys decisions) sb (dead, dones, pk1) ∧
    cullDead dead sb = (Ok tt, s2) ∧
    desciples s' = desciples s2 ∧ spawner s' = spawner s2 ∧
    foldM getStims_body (desciples s') pk1 s' = (Ok packets, s').
Proof.
  intros Hn Hwf Hrun.
  apply step_packets_inv in Hrun
    as (s1 & sa & sb & dead & pk1 & s2
        & Hadm & Hall & Hact & Hscan & Hcull & Hstims).
  destruct (step_admit_Ok s s1 Hn Hwf Hadm) as (Hwf1 & _).
  pose proof (stepAll_world_only decisions s1) as Hpa. rewrite Hall in Hpa.
  pose proof (act_world_only (prioritize decisions) sa) as Hpb.
  rewrite Hact in Hpb. simpl in Hpa, Hpb. rewrite Hpa in Hpb.
  unfold realm_part in Hpb. injection Hpb as Hsp Hd Hc Hid Ht.
  assert (Hwfb : desc_wf sb).
  { destruct Hwf1 as [Hnd Hk]. unfold desc_wf. by rewrite Hd, Hid. }
  destruct (scan_spec (od_keys decisions) (od_keys decisions)
              ([], [], []) (dead, dones, pk1) sb sb)
    as (_ & Hinv & Hcov & _); [done | | done |].
  { split_and!; try apply NoDup_nil_2;
      intros ? ?; try intros ?;
      match goal with Hin : _ ∈ [] |- _ => by apply elem_of_nil in Hin end. }
  rewrite stepEnv_eq in Hstims. cbv zeta in Hstims. simpl in Hstims.
  rewrite getStims_eq in Hstims. simpl in Hstims.
  set (s3 := set_env _ _) in Hstims.
  destruct (getStims_loop_spec (λ _, None) (desciples s2) pk1 s3)
    as (pk' & Hrun' & _).
  rewrite Hrun' in Hstims. injection Hstims as <- <-.
  exists s1, sb, dead, pk1, s2. split_and!; try done.
  unfold state_at_scan. rewrite Hadm. cbn [snd]. rewrite Hall. cbn [snd].
  by rewrite Hact.
Qed.

End more_phases.

Section more_tick.
Context `{Collaborators}.
Implicit Types (pk : list (Z * Packet)) (s : Realm).

Lemma reachable_ok_reachable cfg idx s :
  reachable_ok cfg idx s → reachable cfg idx s.
Proof.
  induction 1 as [s Hinit | s d r s' _ IH Hrun].
  - by apply reach_init.
  - replace s' with (step d s).2 by (by rewrite Hrun). by apply reach_step.
Qed.

Lemma step_Ok_packets decisions s stims rewards dones r4 s' :
  step decisions s = (Ok (stims, rewards, dones, r4), s') →
  ∃ packets,
    step_packets decisions s = (Ok (packets, dones), s') ∧
    stims = map pk_stim (od_values packets) ∧
    rewards = map pk_reward (od_values packets) ∧ r4 = PyNone.
Proof.
  intros Hrun. unfold step in Hrun.
  apply bind_Ok in Hrun as ([packets dones'] & s1 & Hpk & Hret).
  injection Hret as <- <- <- <- <-. eauto.
Qed.

(** X11: a [step] call that returns hands back one observation per entity
    of the entity map it leaves.  The lists of stimuli and of rewards are
    as long as the entity map; the packets are keyed by exactly the keys
    of the entity map; the stimulus of an entity is the pair of what the
    world, as the tick leaves it, computes at the entity's position with
    the configured range, and the entity itself; the fourth component is
    [None]. *)
Theorem step_one_packet_per_entity
    cfg idx s decisions stims rewards dones r4 s' :
  reachable cfg idx s →
  step decisions s = (Ok (stims, rewards, dones, r4), s') →
  length stims = length (desciples s') ∧
  length rewards = length (desciples s') ∧
  r4 = PyNone ∧
  ∃ packets,
    step_packets decisions s = (Ok (packets, dones), s') ∧
    od_keys packets ≡ₚ od_keys (desciples s') ∧
    ∀ k ent, (k, ent) ∈ desciples s' →
      ∃ p, od_get k packets = Some p ∧
           pk_stim p = StimPair (env_stim (world s') (pos (world s') ent)
                                    (STIM (config s'))) ent ∧
           pk_stim p ∈ stims.
Proof.
  intros Hr Hrun.
  pose proof (reachable_built_from cfg idx s Hr) as (Hc & Hn & _). subst cfg.
  pose proof (reachable_desc_wf _ idx s Hr) as Hwf.
  assert (Hwf' : desc_wf s').
  { pose proof (step_desc_wf decisions s Hwf) as Hp. by rewrite Hrun in Hp. }
  apply step_Ok_packets in Hrun as (packets & Hpk & -> & -> & ->).
  destruct (step_packets_Ok decisions s packets dones s' Hn Hwf Hpk)
    as (_ & _ & _ & _ & _ & Hsub).
  destruct (tick_pieces decisions s packets dones s' Hn Hwf Hpk)
    as (s1 & sb & dead & pk1 & s2 & _ & _ & _ & _ & _ & _ & _
        & (_ & _ & _ & _ & Hndpk) & _ & _ & _ & _ & Hstims).
  destruct (getStims_loop_spec (λ _, None) (desciples s') pk1 s')
    as (pk' & Hrun' & _ & _ & _ & _ & Hstim).
  rewrite Hrun' in Hstims. injection Hstims as ->.
  pose proof (getStims_loop_NoDup _ _ _ _ _ Hrun' Hndpk) as Hnd.
  assert (Hperm : od_keys packets ≡ₚ od_keys (desciples s')).
  { apply NoDup_Permutation; [done | apply Hwf' |].
    intros k. split; [apply Hsub |]. intros Hk.
    apply list_elem_of_fmap in Hk as [[k' ent] [-> Hin]].
    destruct (Hstim (proj1 Hwf') k' ent Hin) as (p & Hg & _).
    apply od_get_is_Some. eauto. }
  assert (Hlen : length packets = length (desciples s')).
  { apply Permutation_length in Hperm. unfold od_keys in Hperm.
    by rewrite !length_map in Hperm. }
  unfold od_values. rewrite !length_map.
  split_and!; [done | done | done |].
  exists packets. split_and!; [done | done |].
  intros k ent Hin. destruct (Hstim (proj1 Hwf') k ent Hin) as (p & Hg & Hs & _).
  exists p. split_and!; [done | done |].
  apply list_elem_of_fmap. exists p. split; [done |].
  apply list_elem_of_fmap. exists (k, p). split; [done |].
  by apply od_get_Some_elem.
Qed.

(** X12: as long as every [step] call returns, on a realm built from a
    configuration with a non-negative entity cap and a positive population
    count, the ledger total, and the sum of the per-population counts,
    is the number of entities in the entity map, which never exceeds the
    entity cap. *)
Theorem entity_map_within_cap cfg idx s :
  0 ≤ NENT cfg → 0 < NPOP cfg → reachable_ok cfg idx s →
  ents (spawner s) = Z.of_nat (length (desciples s)) ∧
  sum_counts (pops (spawner s)) = Z.of_nat (length (desciples s)) ∧
  Z.of_nat (length (desciples s)) ≤ NENT cfg.
Proof.
  intros Hn Hp Hr.
  assert (Hlen : ents (spawner s) = Z.of_nat (length (desciples s))).
  { induction Hr as [s Hinit | s d r s' Hr IH Hrun].
    - unfold Realm_init, Spawner_init in Hinit.
      destruct (decide _); [done |]. by injection Hinit as <-.
    - apply reachable_ok_reachable in Hr.
      pose proof (reachable_built_from cfg idx s Hr) as (Hc & Hnz & _).
      subst cfg. destruct r as [[[stims rewards] dones] r4].
      apply step_Ok_packets in Hrun as (packets & Hpk & _).
      destruct (step_packets_Ok d s packets dones s' Hnz
                  (reachable_desc_wf _ idx s Hr) Hpk) as (_ & Hdiff & _).
      lia. }
  apply reachable_ok_reachable in Hr.
  pose proof (reachable_ledger cfg idx s Hn Hp Hr) as (_ & He & _ & Hsum).
  pose proof (reachable_built_from cfg idx s Hr) as (_ & _ & HnE & _).
  rewrite Hsum, <- Hlen, <- HnE. split_and!; [done | done | lia].
Qed.

(** X13: the fate of the entities with a decision, in a [step] call that
    returns.  Each of them is either still in the entity map, under its
    own identifier, with its liveness flag true at the scan, or gone from
    the entity map with its flag false at the scan and its serial number
    in [dones].  Every serial number in [dones] is that of an entity with
    a decision whose flag was false and which is gone from the entity
    map. *)
Theorem decided_entity_fate cfg idx s decisions stims rewards dones r4 s' :
  reachable cfg idx s →
  step decisions s = (Ok (stims, rewards, dones, r4), s') →
  let w := world (state_at_scan decisions s) in
  (∀ k, k ∈ od_keys decisions →
     (∃ ent, od_get k (desciples s') = Some ent ∧ entID_of ent = k ∧
             alive w ent = true) ∨
     (od_get k (desciples s') = None ∧
      ∃ ent, entID_of ent = k ∧ alive w ent = false ∧
             serial w ent ∈ dones)) ∧
  (∀ x, x ∈ dones →
     ∃ k ent, k ∈ od_keys decisions ∧ entID_of ent = k ∧
              alive w ent = false ∧ serial w ent = x ∧
              od_get k (desciples s') = None).
Proof.
  intros Hr Hrun w. subst w.
  pose proof (reachable_built_from cfg idx s Hr) as (Hc & Hn & _). subst cfg.
  pose proof (reachable_desc_wf _ idx s Hr) as Hwf.
  apply step_Ok_packets in Hrun as (packets & Hpk & _).
  destruct (tick_pieces decisions s packets dones s' Hn Hwf Hpk)
    as (s1 & sb & dead & pk1 & s2 & _ & _ & Hsb & Hwfb & _ & _ & Hscan
        & (Hdead & Hdones & Hpk1 & _) & Hcov & Hcull & Hd' & _).
  rewrite <- Hsb.
  assert (Hkey : ∀ k ent, od_get k (desciples sb) = Some ent → entID_of ent = k).
  { intros k ent Hg. destruct Hwfb as [_ Hk].
    by destruct (Hk k ent (od_get_Some_elem _ _ _ Hg)). }
  unfold cullDead in Hcull.
  destruct (cull_loop_spec _ sb s2 Hcull) as (Hget & Hnone & _).
  destruct (Hnone (proj1 Hwfb)) as [_ Hgone].
  assert (Hiter : ∀ x, x ∈ set_iter dead ↔ x ∈ dead).
  { intros x. by rewrite (set_iter_perm dead). }
  destruct (scan_dones _ _ _ _ _ Hscan) as [_ Hlook].
  rewrite Hd'. split.
  - intros k Hk. destruct (Hlook k Hk) as (ent & Hg & Hser). simpl in Hser.
    specialize (Hcov k ent Hk Hg). simpl in Hcov.
    destruct (alive (world sb) ent) eqn:Ha.
    + left. exists ent. split_and!; [| by apply Hkey | done].
      rewrite Hget; [done |]. rewrite Hiter. intros Hin.
      destruct (Hdead k Hin) as (k2 & ent2 & _ & Hg2 & Ha2 & Hid2).
      rewrite (Hkey k2 ent2 Hg2) in Hid2. subst k2. congruence.
    + right. rewrite (Hkey k ent Hg) in Hcov. split.
      * apply Hgone. by apply Hiter.
      * exists ent. split_and!; [by apply Hkey | done | by apply Hser].
  - intros x Hx. destruct (Hdones x Hx) as (k & ent & Hk & Hg & Ha & Hs).
    exists k, ent. split_and!; [done | by apply Hkey | done | done |].
    apply Hgone, Hiter.
    specialize (Hcov k ent Hk Hg). simpl in Hcov. rewrite Ha in Hcov.
    by rewrite (Hkey k ent Hg) in Hcov.
Qed.

(** X14: the first loop of [stepEnts] and [act], returning or raising, and
    [stepEnv], which always returns, leave the ledger, the entity map, the
    configuration and the two counters alone; [getStims] always returns
    and changes nothing at all. *)
Theorem phases_touch_only_the_world decisions actions packets s :
  realm_part (stepAll decisions s).2 = realm_part s ∧
  realm_part (act actions s).2 = realm_part s ∧
  (stepEnv s).1 = Ok tt ∧ realm_part (stepEnv s).2 = realm_part s ∧
  (∃ packets', (getStims packets s).1 = Ok packets') ∧
  (getStims packets s).2 = s.
Proof.
  split_and!.
  - apply stepAll_world_only.
  - apply act_world_only.
  - by rewrite stepEnv_eq.
  - by rewrite stepEnv_eq.
  - destruct (getStims_loop_spec (λ _, None) (desciples s) packets s)
      as (pk' & Hrun & _).
    exists pk'. by rewrite getStims_eq, Hrun.
  - destruct (getStims_loop_spec (λ _, None) (desciples s) packets s)
      as (pk' & Hrun & _).
    by rewrite getStims_eq, Hrun.
Qed.

(** X15: the entity a tick admits.  When the ledger has room, in total and
    for the population drawn, and the [step] call returns, the identifier
    generated in this tick, which was no key of the entity map before, is
    one afterwards, bound to an entity of that identifier, provided the
    decisions do not mention it. *)
Theorem admitted_entity_appears
    cfg idx s decisions stims rewards dones r4 s' :
  reachable cfg idx s →
  ents (spawner s) ≠ nEnt (spawner s) →
  liveCount (spawner s) (hash (pretty (entID s)) `mod` NPOP cfg)
    ≠ popSz (spawner s) →
  step decisions s = (Ok (stims, rewards, dones, r4), s') →
  entID s + 1 ∉ od_keys decisions →
  od_get (entID s + 1) (desciples s) = None ∧
  ∃ ent, od_get (entID s + 1) (desciples s') = Some ent ∧
         entID_of ent = entID s + 1.
Proof.
  intros Hr Hroom Hproom Hrun Hnk.
  pose proof (reachable_built_from cfg idx s Hr) as (Hc & Hn & _). subst cfg.
  pose proof (reachable_desc_wf _ idx s Hr) as Hwf.
  assert (Hfresh : entID s + 1 ∉ od_keys (desciples s)).
  { intros Hin. apply list_elem_of_fmap in Hin as [[k ent] [Hk Hin]].
    destruct Hwf as [_ Hkeys]. destruct (Hkeys k ent Hin) as [_ Hle].
    simpl in Hk. lia. }
  split; [by apply od_get_None |].
  apply step_Ok_packets in Hrun as (packets & Hpk & _).
  destruct (tick_pieces decisions s packets dones s' Hn Hwf Hpk)
    as (s1 & sb & dead & pk1 & s2 & Hadm & _ & _ & Hwfb & Hdb & _ & _
        & (Hdead & _) & _ & Hcull & Hd' & _).
  assert (Hnew : ∃ ent, od_get (entID s + 1) (desciples s1) = Some ent ∧
                        entID_of ent = entID s + 1).
  { rewrite step_admit_eq in Hadm by done. cbv zeta in Hadm.
    rewrite Spawner_spawn_eq in Hadm. cbv zeta in Hadm. simpl in Hadm.
    repeat case_bool_decide; try done.
    rewrite !decide_False in Hadm by done.
    destruct (ent_in _ _ _); [done |]. injection Hadm as <-. simpl.
    eexists. rewrite od_get_set, Player_entID, decide_True by done.
    split; [done |]. apply Player_entID. }
  destruct Hnew as (ent & Hg & Hid). exists ent. split; [| done].
  unfold cullDead in Hcull.
  destruct (cull_loop_spec _ sb s2 Hcull) as (Hget & _).
  rewrite Hd', Hget, Hdb; [done |].
  rewrite (set_iter_perm dead). intros Hin.
  destruct (Hdead _ Hin) as (k2 & ent2 & Hk2 & Hg2 & _ & Hid2).
  destruct Hwfb as [_ Hkeys].
  destruct (Hkeys k2 ent2 (od_get_Some_elem _ _ _ Hg2)) as [Hid2' _].
  apply Hnk. congruence.
Qed.

End more_tick.

(** * The claims on concrete realms *)

Module SampleFacts.
Import Sample.

Lemma realm0_init21 : @Realm_init collab cfg21 0 = Ok (realm0 cfg21).
Proof. reflexivity. Qed.

Lemma realm0_init42 : @Realm_init collab cfg42 0 = Ok (realm0 cfg42).
Proof. reflexivity. Qed.

Lemma run_reachable cfg ds s :
  @reachable collab cfg 0 s → @reachable collab cfg 0 (run ds s).
Proof.
  revert s. induction ds as [|d ds IH]; intros s Hs; [done |].
  simpl. apply IH. by apply (@reach_step collab).
Qed.

(** C1, the claim as stated fails: on an empty ledger with room
    ([entityCap = 2], one population) the call admits the entity, the
    total goes from 0 to 1, and the value returned is [None], which is not
    [True] and is not even truthy. *)
Lemma Spawner_spawn_returns_None :
  let s := realm0 cfg21 in
  let r := @Spawner_spawn collab (Some 2) 0 "Neural_" s in
  ents (spawner s) ≠ nEnt (spawner s) ∧
  liveCount (spawner s) 0 ≠ popSz (spawner s) ∧
  ents (spawner r.2) = ents (spawner s) + 1 ∧
  r.1 = Ok PyNone ∧ r.1 ≠ Ok (PyBool true) ∧ truthy PyNone = false.
Proof. vm_compute. by split_and!. Qed.

Lemma Spawner_spawn_admission_witness :
  let s := realm0 cfg21 in
  let r := @Spawner_spawn collab (Some 2) 0 "Neural_" s in
  (r.1 = Ok PyNone ∨ r.1 = Raise AssertEntPresent) ∧
  ents (spawner r.2) = ents (spawner s) + 1 ∧
  liveCount (spawner r.2) 0 = liveCount (spawner s) 0 + 1 ∧
  (∀ p, p ≠ 0 → liveCount (spawner r.2) p = liveCount (spawner s) p).
Proof.
  intros s r.
  pose proof (@Spawner_spawn_admission collab s 2 0 "Neural_"
                ltac:(by vm_compute) ltac:(by vm_compute)) as Hw.
  cbv zeta in Hw. rewrite decide_False in Hw; [exact Hw |].
  vm_compute. by intros [?|?].
Defined.

Lemma ledger_bounds_witness :
  let s := run [[]; []; []] (realm0 cfg21) in
  0 ≤ liveCount (spawner s) 0 ≤ NENT cfg21 `div` NPOP cfg21 ∧
  sum_counts (pops (spawner s)) = ents (spawner s) ∧
  0 ≤ sum_counts (pops (spawner s)) ≤ NENT cfg21.
Proof.
  intros s.
  apply (@ledger_bounds collab cfg21 0 s 0); [by vm_compute | by vm_compute |].
  apply run_reachable, (@reach_init collab), realm0_init21.
Defined.

(** C3, what the code does: of the actions an entity submits with one
    priority, [prioritize] keeps the one it meets last, for every decisions
    mapping.  At the failing input entity 1 submits ["Move"] and then
    ["Attack"], both of priority 0: the tier holds ["Attack"], and
    ["Move"], the first one, is gone. *)
Theorem prioritize_same_priority_keeps_last :
  (∀ (C : Collaborators) (decisions : @Decisions C) p e,
     tier_entry (prioritize decisions) p e =
       last (filter (λ x, priority x.2.1 = p ∧ x.1 = e)
                    (submitted decisions))
         ≫= λ x, Some x.2) ∧
  @prioritize collab
    [(1, [(("Move"%string, 0), 10); (("Attack"%string, 0), 20)])]
  = [(0, [(1, (("Attack"%string, 0), 20))])].
Proof.
  split; [| reflexivity].
  intros C decisions p e. apply prioritize_keeps_last.
Qed.

(** C4, what the code does: the tiers are kept, and visited by [act], in
    the order in which their priorities are first met among the submitted
    actions, for every decisions mapping; nothing sorts them.  At the
    failing input entity 2 submits an action of priority 5 and entity 3
    one of priority 1: the priority-5 action is applied first, as the log
    of the world shows. *)
Theorem act_order_is_submission_order :
  (∀ (C : Collaborators) (decisions : @Decisions C) s,
     od_keys (prioritize decisions) =
       fold_left (λ seen x, set_add (priority x.2.1) seen)
                 (submitted decisions) [] ∧
     act (prioritize decisions) s =
       for_ (act_calls (prioritize decisions))
            (λ c, ent <- lookup_ent c.1.2 ;;
                  modify (set_world (ent_act ent c.2))) s) ∧
  let decisions : @Decisions collab :=
    [(2, [(("Hi"%string, 5), 0)]); (3, [(("Lo"%string, 1), 0)])] in
  let s := run [[]; []] (realm0 cfg21) in
  od_keys (desciples s) = [2; 3] ∧
  @act_calls collab (@prioritize collab decisions)
    = [(5, 2, (("Hi"%string, 5), 0)); (1, 3, (("Lo"%string, 1), 0))] ∧
  applied (world (@step collab decisions s).2)
    = [(2, "Hi"%string, 5); (3, "Lo"%string, 1)].
Proof.
  split.
  - intros C decisions s. split.
    + apply prioritize_tier_order.
    + apply act_act_calls.
  - vm_compute. by split_and!.
Qed.

(** C5, the claim as stated fails: with two populations the first call
    returns identifier 2 and population 1, the hash of ["1"] modulo 2,
    while the hash of ["2"], the string form of the identifier returned,
    is 0 modulo 2. *)
Lemma spawn_population_is_not_of_returned_iden :
  let s := realm0 cfg42 in
  (@spawn collab s).1 = Ok (Some 2, 1, "Neural_"%string) ∧
  @hash collab (pretty 2) `mod` NPOP (config s) = 0 ∧
  ¬ ∃ iden pop name,
      (@spawn collab s).1 = Ok (Some iden, pop, name) ∧
      pop = @hash collab (pretty iden) `mod` NPOP (config s).
Proof.
  vm_compute. split_and!; [done | done |].
  intros (iden & pop & name & Heq & Hpop). by injection Heq as <- <- _.
Qed.

Lemma spawn_population_witness :
  ∃ iden pop name,
    (@spawn collab (realm0 cfg42)).1 = Ok (Some iden, pop, name) ∧
    iden = entID (realm0 cfg42) + 1 ∧
    pop = @hash collab (pretty (iden - 1)) `mod` NPOP (config (realm0 cfg42)).
Proof. apply (@spawn_population collab (realm0 cfg42)). by vm_compute. Defined.

Lemma reset_spec_witness :
  @reset collab (realm0 cfg21) = @step collab [] (realm0 cfg21) ∧
  @reset collab (@step collab [] (realm0 cfg21)).2
    = (Raise AssertRestart, (@step collab [] (realm0 cfg21)).2).
Proof.
  destruct (@reset_spec collab) as [Hzero Hlater]. split.
  - apply Hzero. reflexivity.
  - apply (Hlater cfg21 0). apply (@reach_init collab), realm0_init21.
Defined.

Lemma identifiers_increasing_witness :
  let ids := @idens_of_run collab [[]; []; []] (realm0 cfg21) in
  length ids = 3%nat ∧
  (∀ i j a b, ids !! i = Some a → ids !! j = Some b → (i < j)%nat → a < b) ∧
  NoDup ids ∧
  (∀ a, a ∈ ids →
        entID (realm0 cfg21) < a ∧
        ∀ k, k ∈ od_keys (desciples (realm0 cfg21)) → k < a).
Proof.
  apply (@identifiers_increasing collab cfg21 0 (realm0 cfg21) [[]; []; []]).
  apply (@reach_init collab), realm0_init21.
Defined.

Lemma spawn_total_witness :
  (∃ pop, (@spawn collab (realm0 cfg21)).1 = Ok (Some 2, pop, "Neural_"%string)) ∧
  (∀ s, @reachable collab cfg21 0 s →
     ∃ pop pop',
       @spawn collab s = (Ok (Some (entID s + 1), pop, "Neural_"%string),
                          set_entID (λ n, n + 1) s) ∧
       (@spawn collab (@spawn collab s).2).1
         = Ok (Some (entID s + 2), pop', "Neural_"%string)) ∧
  (∀ s decisions, (@step collab decisions s).1 ≠ Raise AssertIdenNone_step).
Proof. apply (@spawn_total collab cfg21 0 (realm0 cfg21)), realm0_init21. Defined.

(** C6, the claim as stated fails: the first tick of a realm, with no
    decisions, admits entity 2 and returns its stimulus paired with the
    reward [None], not zero. *)
Lemma step_reward_of_undecided_is_None :
  (@step collab [] (realm0 cfg21)).1
    = Ok ([@StimPair collab (0, 2) (2, 0)], [None], [], PyNone) ∧
  (None : option Z) ≠ Some (reward 2).
Proof. vm_compute. by split. Qed.

Lemma step_rewards_witness :
  let s := run [[]] (realm0 cfg21) in
  let decisions : @Decisions collab := [(2, [(("Move"%string, 0), 0)])] in
  ∃ packets,
    @step_packets collab decisions s
      = (Ok (packets, []), (@step collab decisions s).2) ∧
    [@StimPair collab (0, 2) (2, 0); @StimPair collab (0, 3) (3, 0)]
      = map pk_stim (od_values packets) ∧
    [Some 0; None]
      = map (λ k, if decide (k ∈ od_keys decisions)
                  then Some (reward k) else None)
            (od_keys packets) ∧
    (∀ k, k ∈ od_keys packets →
          k ∈ od_keys (desciples (@step collab decisions s).2)).
Proof.
  intros s decisions.
  apply (@step_rewards collab cfg21 0 s decisions _ _ _ PyNone).
  - apply run_reachable, (@reach_init collab), realm0_init21.
  - by vm_compute.
Defined.

Lemma undecided_entity_is_kept_witness :
  let s := run [[]; []; [(2, [(("Attack"%string, 1), 3)])]] (realm0 cfg21) in
  let s' := (@step collab [] s).2 in
  @alive collab (world s) (3, 0) = false ∧
  od_get 3 (desciples s') = Some (3, 0) ∧
  ents (spawner s') - Z.of_nat (length (desciples s'))
    = ents (spawner s) - Z.of_nat (length (desciples s)) ∧
  (∀ w, @serial collab w (3, 0) ∉ ([] : list Z)) ∧
  ∃ packets p st,
    @step_packets collab [] s = (Ok (packets, []), s') ∧
    od_get 3 packets = Some p ∧
    pk_stim p = @StimPair collab st (3, 0) ∧ pk_reward p = None ∧
    @StimPair collab st (3, 0)
      ∈ [@StimPair collab (0, 2) (2, 0); @StimPair collab (0, 3) (3, 0)].
Proof.
  intros s s'. split; [by vm_compute |].
  apply (@undecided_entity_is_kept collab cfg21 0 s []
           _ [None; None] [] PyNone s' 3 (3, 0)).
  - apply run_reachable, (@reach_init collab), realm0_init21.
  - intros w1 w2 e1 e2 Heq. exact Heq.
  - by vm_compute.
  - by vm_compute.
  - apply not_elem_of_nil.
Defined.

End SampleFacts.

(** * The further properties on concrete realms *)

Module SampleMore.
Import Sample SampleFacts.

Lemma Spawner_spawn_cull_roundtrip_witness :
  let s := realm0 cfg21 in
  let s1 := (@Spawner_spawn collab (Some 2) 0 "Neural_" s).2 in
  (Spawner_cull 0 (spawner s1)).1 = Ok tt ∧
  ents (Spawner_cull 0 (spawner s1)).2 = ents (spawner s) ∧
  ∀ p, liveCount (Spawner_cull 0 (spawner s1)).2 p = liveCount (spawner s) p.
Proof.
  intros s s1.
  apply (@Spawner_spawn_cull_roundtrip collab s 2 0 "Neural_" s1);
    by vm_compute.
Defined.

Lemma spawn_population_range_witness :
  ∃ iden pop name,
    (@spawn collab (realm0 cfg42)).1 = Ok (Some iden, pop, name) ∧
    0 ≤ pop < NPOP (config (realm0 cfg42)).
Proof. apply (@spawn_population_range collab (realm0 cfg42)). by vm_compute. Defined.

Lemma steps_counters_witness :
  let s := @steps collab [[]; [(7, [])]; []] (realm0 cfg21) in
  tick s = 3 ∧ entID s = 1 + 3 ∧ config s = cfg21.
Proof.
  apply (@steps_counters collab cfg21 0 (realm0 cfg21) [[]; [(7, [])]; []]).
  apply realm0_init21.
Defined.

Lemma refused_identifier_is_skipped_witness :
  let s := run [[]; []] (realm0 cfg21) in
  ents (spawner s) = nEnt (spawner s) ∧
  (@step_admit collab s).1 = Ok tt ∧
  desciples (@step_admit collab s).2 = desciples s ∧
  world (@step_admit collab s).2 = world s ∧
  ents (spawner (@step_admit collab s).2) = ents (spawner s) ∧
  (∀ p, liveCount (spawner (@step_admit collab s).2) p
        = liveCount (spawner s) p) ∧
  entID (@step collab [] s).2 = entID s + 1 ∧
  ∀ k, k ∈ od_keys (desciples (@step collab [] s).2) → k ≤ entID s.
Proof.
  intros s. split; [by vm_compute |].
  apply (@refused_identifier_is_skipped collab s []).
  - by vm_compute.
  - apply (@reachable_desc_wf collab cfg21 0).
    apply run_reachable, (@reach_init collab), realm0_init21.
  - by vm_compute.
  - by vm_compute.
  - left. by vm_compute.
Defined.

Lemma step_errors_witness : tick_error (KeyError 7).
Proof.
  apply (@step_errors collab cfg21 0 (realm0 cfg21) [(7, [])] (KeyError 7)).
  - by vm_compute.
  - by vm_compute.
  - apply (@reach_init collab), realm0_init21.
  - by vm_compute.
Defined.


#[local] Existing Instance collab.

Lemma cullDead_spec_witness :
  let s := run [[]; []; [(2, [(("Attack"%string, 1), 3)])]] (realm0 cfg21) in
  let s' := (@cullDead collab [3] s).2 in
  (∀ k, k ∈ [3] →
        k ∈ od_keys (desciples s) ∧ od_get k (desciples s') = None) ∧
  (∀ k, k ∉ [3] → od_get k (desciples s') = od_get k (desciples s)) ∧
  NoDup (od_keys (desciples s')) ∧
  ents (spawner s') = ents (spawner s) - Z.of_nat (length [3]) ∧
  Z.of_nat (length (desciples s'))
    = Z.of_nat (length (desciples s)) - Z.of_nat (length [3]) ∧
  config s' = config s ∧ entID s' = entID s.
Proof.
  intros s s'. apply (@cullDead_spec collab [3] s s').
  - apply (@reachable_desc_wf collab cfg21 0).
    apply run_reachable, (@reach_init collab), realm0_init21.
  - by vm_compute.
Defined.

Lemma getStims_spec_witness :
  let s := run [[]] (realm0 cfg21) in
  let pk : list (Z * @Packet collab) := [] in
  ∃ pk',
    @getStims collab pk s = (Ok pk', s) ∧
    (∀ k ent, (k, ent) ∈ desciples s →
       ∃ p, od_get k pk' = Some p ∧
            pk_stim p = StimPair (env_stim (world s) (pos (world s) ent)
                                     (STIM (config s))) ent ∧
            pk_reward p = pk_reward (default Packet_new (od_get k pk))) ∧
    (∀ k, k ∉ od_keys (desciples s) → od_get k pk' = od_get k pk) ∧
    (∀ k, k ∈ od_keys pk' ↔ k ∈ od_keys pk ∨ k ∈ od_keys (desciples s)) ∧
    (NoDup (od_keys pk) → NoDup (od_keys pk')).
Proof.
  intros s pk. apply (@getStims_spec collab pk s).
  apply (@reachable_desc_wf collab cfg21 0).
  apply run_reachable, (@reach_init collab), realm0_init21.
Defined.

Lemma step_one_packet_per_entity_witness :
  let s := run [[]] (realm0 cfg21) in
  let s' := (@step collab [] s).2 in
  let stims := [@StimPair collab (0, 2) (2, 0); @StimPair collab (0, 3) (3, 0)] in
  length stims = length (desciples s') ∧
  length [None; (None : option Z)] = length (desciples s') ∧
  PyNone = PyNone ∧
  ∃ packets,
    @step_packets collab [] s = (Ok (packets, []), s') ∧
    od_keys packets ≡ₚ od_keys (desciples s') ∧
    ∀ k ent, (k, ent) ∈ desciples s' →
      ∃ p, od_get k packets = Some p ∧
           pk_stim p = StimPair (env_stim (world s') (pos (world s') ent)
                                    (STIM (config s'))) ent ∧
           pk_stim p ∈ stims.
Proof.
  intros s s' stims.
  apply (@step_one_packet_per_entity collab cfg21 0 s []).
  - apply run_reachable, (@reach_init collab), realm0_init21.
  - by vm_compute.
Defined.

Lemma entity_map_within_cap_witness :
  let s := (@step collab [] (realm0 cfg21)).2 in
  ents (spawner s) = Z.of_nat (length (desciples s)) ∧
  sum_counts (pops (spawner s)) = Z.of_nat (length (desciples s)) ∧
  Z.of_nat (length (desciples s)) ≤ NENT cfg21.
Proof.
  intros s.
  apply (@entity_map_within_cap collab cfg21 0 s); [by vm_compute.. |].
  apply (@rok_step collab cfg21 0 (realm0 cfg21) []
           ([@StimPair collab (0, 2) (2, 0)], [None], [], PyNone)).
  - apply (@rok_init collab), realm0_init21.
  - by vm_compute.
Defined.

Lemma decided_entity_fate_witness :
  let s := run [[]; []] (realm0 cfg21) in
  let decisions : @Decisions collab :=
    [(2, [(("Attack"%string, 1), 3)]); (3, [(("Move"%string, 0), 0)])] in
  let s' := (@step collab decisions s).2 in
  let w := world (@state_at_scan collab decisions s) in
  (∀ k, k ∈ od_keys decisions →
     (∃ ent, od_get k (desciples s') = Some ent ∧ @entID_of collab ent = k ∧
             @alive collab w ent = true) ∨
     (od_get k (desciples s') = None ∧
      ∃ ent, @entID_of collab ent = k ∧ @alive collab w ent = false ∧
             @serial collab w ent ∈ [3])) ∧
  (∀ x, x ∈ [3] →
     ∃ k ent, k ∈ od_keys decisions ∧ @entID_of collab ent = k ∧
              @alive collab w ent = false ∧ @serial collab w ent = x ∧
              od_get k (desciples s') = None).
Proof.
  intros s decisions s'.
  apply (@decided_entity_fate collab cfg21 0 s decisions
           [@StimPair collab (0, 2) (2, 0)] [Some 0] [3] PyNone s').
  - apply run_reachable, (@reach_init collab), realm0_init21.
  - by vm_compute.
Defined.

Lemma admitted_entity_appears_witness :
  let s := realm0 cfg21 in
  let s' := (@step collab [] s).2 in
  od_get (entID s + 1) (desciples s) = None ∧
  ∃ ent, od_get (entID s + 1) (desciples s') = Some ent ∧
         @entID_of collab ent = entID s + 1.
Proof.
  intros s s'.
  apply (@admitted_entity_appears collab cfg21 0 s []
           [@StimPair collab (0, 2) (2, 0)] [None] [] PyNone s').
  - apply (@reach_init collab), realm0_init21.
  - by vm_compute.
  - by vm_compute.
  - by vm_compute.
  - apply not_elem_of_nil.
Defined.

End SampleMore.
